(** * Continuous-collision world step (gaming_framework.physics.world)

    A shallow embedding of [World] from [gaming_framework/physics/world.py]
    and the properties of its time-of-impact solver, swept-body builder,
    broad phase, resolution loop and commit.

    Numbers.  The Python code computes on floats; here every float is an
    exact real number ([R]), so rounding is not modelled.  The places where
    the arithmetic is partial are written out: the division by [2 * a] in
    the solver, a [numpy.float64] division that yields nan or an infinity on
    a zero divisor ([np_div]), and the division of a vector by a scalar
    ([scalar_div]).  Where the rounding itself decides a property, the
    solver is also given on binary64 floats ([time_of_collision_f64]). *)

From Stdlib Require Import Floats.PrimFloat.
From Stdlib Require Import Reals Lra List Bool Arith Lia.
Import ListNotations.
Open Scope R_scope.

(** ** Comparisons of reals as booleans *)

Definition Rltb (x y : R) : bool := if Rlt_dec x y then true else false.
Definition Rleb (x y : R) : bool := if Rle_dec x y then true else false.
Definition Reqb (x y : R) : bool := if Req_dec_T x y then true else false.

(** ** Geometry (gaming_framework.geometry.shape) *)

(** Modelled from the spec: [Point2D], [Circle] and [Rectangle] are not
    under src/; a point has the coordinates [x] and [y], a circle a centre
    and a radius, a rectangle its top-left and bottom-right corners. *)
Record Point2D := mkPoint { px : R; py : R }.

(** Modelled from the spec: the operators of [Point2D] are the componentwise
    ones the velocity-exchange formula of the spec uses. *)
Definition padd (p q : Point2D) : Point2D := mkPoint (px p + px q) (py p + py q).
Definition psub (p q : Point2D) : Point2D := mkPoint (px p - px q) (py p - py q).
Definition scalar_mult (p : Point2D) (k : R) : Point2D := mkPoint (px p * k) (py p * k).

(** Modelled from the spec: [Point2D.scalar_div]; a division by the scalar
    zero has no value, it raises ([None]). *)
Definition scalar_div (p : Point2D) (k : R) : option Point2D :=
  if Req_dec_T k 0 then None else Some (mkPoint (px p / k) (py p / k)).

(** Modelled from the spec: [==] on points compares the coordinates. *)
Definition point_eqb (p q : Point2D) : bool := Reqb (px p) (px q) && Reqb (py p) (py q).

Record Circle := mkCircle { center : Point2D; radius : R }.

(** [Rectangle(top_left, bottom_right)]. *)
Record Rectangle := mkRectangle { top_left : Point2D; bottom_right : Point2D }.

Definition rect_top (r : Rectangle) : R := py (top_left r).
Definition rect_left (r : Rectangle) : R := px (top_left r).
Definition rect_bottom (r : Rectangle) : R := py (bottom_right r).
Definition rect_right (r : Rectangle) : R := px (bottom_right r).

(** Modelled from the spec: [Shape.center_to(point)] is "a translated copy
    of the shape centered at point". *)
Definition center_to (c : Circle) (p : Point2D) : Circle := mkCircle p (radius c).

(** ** Bodies (gaming_framework.physics.body) *)

(** Modelled from the spec: [Body] is not under src/.  A physical body is a
    circle ("circular bounding volume: center point + radius"), so its
    shape, its bounding box and its position are one circle and its centre;
    it has a velocity, a mass and the flags [is_static] and [is_tangible]. *)
Record Body := mkBody {
  bounding_box : Circle;
  speed : Point2D;
  mass : R;
  is_static : bool;
  is_tangible : bool
}.

Definition position (b : Body) : Point2D := center (bounding_box b).
Definition shape (b : Body) : Circle := bounding_box b.

(** Modelled from the spec: [predict_position(dt)] is "the position after dt
    at current velocity, side-effect-free". *)
Definition predict_position (b : Body) (dt : R) : Point2D :=
  padd (position b) (scalar_mult (speed b) dt).

(** Modelled from the spec: [update(dt)] "advances the body's own simulated
    state by dt (integrates position from velocity)". *)
Definition body_update (b : Body) (dt : R) : Body :=
  mkBody (center_to (bounding_box b) (predict_position b dt))
         (speed b) (mass b) (is_static b) (is_tangible b).

Definition set_speed (b : Body) (v : Point2D) : Body :=
  mkBody (bounding_box b) v (mass b) (is_static b) (is_tangible b).

(** ** Time-of-impact solver *)

(** A [numpy.float64] result: a finite number, nan or an infinity. *)
Inductive npfloat := Fin (r : R) | NaN | PosInf | NegInf.

(** [x / y] on [numpy.float64]: a zero divisor gives nan for [0 / 0] and an
    infinity otherwise (with a RuntimeWarning), never an exception. *)
Definition np_div (x y : R) : npfloat :=
  if Req_dec_T y 0 then
    if Req_dec_T x 0 then NaN
    else if Rlt_dec 0 x then PosInf else NegInf
  else Fin (x / y).

(** [t < 0] and [t > 0]; every comparison with nan is false. *)
Definition np_ltb0 (t : npfloat) : bool :=
  match t with Fin r => Rltb r 0 | NegInf => true | _ => false end.
Definition np_gtb0 (t : npfloat) : bool :=
  match t with Fin r => Rltb 0 r | PosInf => true | _ => false end.

Section Coefficients.
Variables body_a body_b : Body.

Definition toc_distance : R :=
  radius (bounding_box body_a) ^ 2
  + 2 * radius (bounding_box body_a) * radius (bounding_box body_b)
  + radius (bounding_box body_b) ^ 2.

Definition toc_a : R :=
  (px (speed body_a) - px (speed body_b)) * (px (speed body_a) - px (speed body_b))
  + (py (speed body_a) - py (speed body_b)) * (py (speed body_a) - py (speed body_b)).

Definition toc_b : R :=
  2 * ((px (center (bounding_box body_a)) - px (center (bounding_box body_b)))
       * (px (speed body_a) - px (speed body_b))
       + (py (center (bounding_box body_a)) - py (center (bounding_box body_b)))
         * (py (speed body_a) - py (speed body_b))).

Definition toc_c : R :=
  (px (center (bounding_box body_a)) - px (center (bounding_box body_b)))
  * (px (center (bounding_box body_a)) - px (center (bounding_box body_b)))
  + (py (center (bounding_box body_a)) - py (center (bounding_box body_b)))
    * (py (center (bounding_box body_a)) - py (center (bounding_box body_b)))
  - toc_distance.

Definition toc_delta : R := toc_b ^ 2 - 4 * toc_a * toc_c.

(** The two roots as real numbers, meaningful when [toc_a <> 0]. *)
Definition toc_t1 : R := (- toc_b - sqrt toc_delta) / (2 * toc_a).
Definition toc_t2 : R := (- toc_b + sqrt toc_delta) / (2 * toc_a).

(** [World.__time_of_collision]. *)
Definition time_of_collision : npfloat :=
  let a := toc_a in
  let b := toc_b in
  let delta := toc_delta in
  if Rltb delta 0 then Fin (-1)
  else
    let d := sqrt delta in
    let t1 := np_div (- b - d) (2 * a) in
    let t2 := np_div (- b + d) (2 * a) in
    if np_ltb0 t1 && np_gtb0 t2 && Rleb b 0 then Fin 0
    else t1.
End Coefficients.

(** Two circles overlap (or touch) at the current instant. *)
Definition overlapping (body_a body_b : Body) : Prop := toc_c body_a body_b <= 0.

(** ** Collaborators of the world *)

(** Bodies are Python objects compared and hashed by identity: a body is
    named by a [BodyId] and its current state is read from the heap of the
    world. *)
Definition BodyId := nat.

(** Modelled from the spec: [BodyPair] is not under src/; it is "an unordered
    pair of two distinct bodies; equality and membership tests must be
    independent of argument order". *)
Record BodyPair := mkPair { body_a : BodyId; body_b : BodyId }.

Definition pair_eqb (p q : BodyPair) : bool :=
  (Nat.eqb (body_a p) (body_a q) && Nat.eqb (body_b p) (body_b q))
  || (Nat.eqb (body_a p) (body_b q) && Nat.eqb (body_b p) (body_a q)).

(** A swept proxy: the [Body] object that wraps the swept rectangle.  It is
    a fresh object at each construction, told apart by [sweept_id]. *)
Record SweptBody := mkSwept { sweept_id : nat; sweept_shape : Rectangle }.

Definition sweept_eqb (s t : SweptBody) : bool := Nat.eqb (sweept_id s) (sweept_id t).

(** The geometric predicates of the shapes and of the spatial structure are
    outside src/; the world is stated over any implementation of them. *)
Class Geometry := {
  (** [Shape.collides_with]: the exact overlap test of two true shapes. *)
  collides_with : Circle -> Circle -> bool;
  (** the test by which [query(shape)] selects an indexed proxy, *)
  overlaps_proxy : Rectangle -> Rectangle -> bool;
  (** and an indexed physical body. *)
  overlaps_body : Rectangle -> Circle -> bool
}.

(** ** Python dicts as association lists in insertion order *)

Section Dict.
Context {K V : Type} (eqb : K -> K -> bool).

Fixpoint dict_get (k : K) (d : list (K * V)) : option V :=
  match d with
  | [] => None
  | (k', v) :: d' => if eqb k k' then Some v else dict_get k d'
  end.

Definition dict_mem (k : K) (d : list (K * V)) : bool :=
  match dict_get k d with Some _ => true | None => false end.

(** [d[k] = v]: an existing key keeps its place. *)
Fixpoint dict_set (k : K) (v : V) (d : list (K * V)) : list (K * V) :=
  match d with
  | [] => [(k, v)]
  | (k', v') :: d' => if eqb k k' then (k, v) :: d' else (k', v') :: dict_set k v d'
  end.

(** [del d[k]] for a key that is present. *)
Fixpoint dict_del (k : K) (d : list (K * V)) : list (K * V) :=
  match d with
  | [] => []
  | (k', v') :: d' => if eqb k k' then d' else (k', v') :: dict_del k d'
  end.

Definition dict_keys (d : list (K * V)) : list K := map fst d.
End Dict.

(** ** The candidate queue *)

Definition Candidate : Type := R * BodyPair.

(** [heapq.heappush] and [heapq.heappop] on [(toc, pair)] tuples: the queue
    is kept as the list of its candidates by ascending time, so that a pop
    takes the head.  Among candidates of equal time the tuple order falls
    to [BodyPair], which the source does not fix; here the one pushed first
    is popped first. *)
Fixpoint heappush (c : Candidate) (q : list Candidate) : list Candidate :=
  match q with
  | [] => [c]
  | c' :: q' => if Rltb (fst c) (fst c') then c :: q else c' :: heappush c q'
  end.

(** ** The world *)

Record MovingRecord := mkRecord {
  rec_start : Point2D;
  rec_new_pos : Point2D;
  rec_sweept : SweptBody
}.

Record World := mkWorld {
  visible_area : Rectangle;
  (** the objects of [spatial_struct], in the order of [get_objects()] *)
  spatial_struct : list BodyId;
  (** the state of every [Body] object *)
  heap : BodyId -> Body;
  _moving_bodies : list (BodyId * MovingRecord);
  _sweept_bodies : list (SweptBody * BodyId);
  (** the proxies inserted in the Movement Index *)
  _movement_spatial_struct : list SweptBody;
  _collision_candidates : list Candidate;
  (** the identity given to the next proxy object *)
  next_sweept : nat;
  (** the calls [x.handle_collision(y)] made so far, as [(x, y)] *)
  handled : list (BodyId * BodyId)
}.

Definition set_moving (w : World) m sb ms : World :=
  mkWorld (visible_area w) (spatial_struct w) (heap w) m sb ms
          (_collision_candidates w) (next_sweept w) (handled w).

Definition set_candidates (w : World) (q : list Candidate) : World :=
  mkWorld (visible_area w) (spatial_struct w) (heap w) (_moving_bodies w)
          (_sweept_bodies w) (_movement_spatial_struct w) q (next_sweept w) (handled w).

Definition set_heap (w : World) (h : BodyId -> Body) : World :=
  mkWorld (visible_area w) (spatial_struct w) h (_moving_bodies w)
          (_sweept_bodies w) (_movement_spatial_struct w) (_collision_candidates w)
          (next_sweept w) (handled w).

(** A method of a body object that mutates it. *)
Definition on_body (body : BodyId) (f : Body -> Body) (w : World) : World :=
  set_heap w (fun i => if Nat.eqb i body then f (heap w body) else heap w i).

(** Modelled from the spec: [x.handle_collision(y)] is the application's
    "collision-response capability: a single callback accepting the other
    body"; the call is recorded and changes nothing of the world. *)
Definition handle_collision (x y : BodyId) (w : World) : World :=
  mkWorld (visible_area w) (spatial_struct w) (heap w) (_moving_bodies w)
          (_sweept_bodies w) (_movement_spatial_struct w) (_collision_candidates w)
          (next_sweept w) (handled w ++ [(x, y)]).

(** A raised Python exception (KeyError, ZeroDivisionError) is [None]. *)
Definition bind {A B : Type} (m : option A) (k : A -> option B) : option B :=
  match m with Some x => k x | None => None end.

Notation "x <- m ;; k" := (bind m (fun x => k))
  (at level 61, m at next level, right associativity).

(** ** Swept-body builder *)

(** [World.__calculate_sweept_body], the new proxy object being the one of
    identity [fresh]; [new_pos] is the predicted position, whose [center]
    is itself. *)
Definition calculate_sweept_body (fresh : nat) (body : Body) (new_pos : Point2D)
  : SweptBody :=
  let top := py (center (bounding_box body)) + radius (bounding_box body) in
  let left := px (center (bounding_box body)) - radius (bounding_box body) in
  let bottom := py new_pos - radius (bounding_box body) in
  let right := px new_pos + radius (bounding_box body) in
  let top_left := mkPoint left top in
  let bottom_right := mkPoint right bottom in
  let sweept_shape := mkRectangle top_left bottom_right in
  mkSwept fresh sweept_shape.

(** ** The methods of [World] *)

(** [0 <= toc] and [toc <= hi] on a [numpy.float64]. *)
Definition np_geb0 (t : npfloat) : bool :=
  match t with Fin r => Rleb 0 r | PosInf => true | _ => false end.
Definition np_leb (t : npfloat) (hi : R) : bool :=
  match t with Fin r => Rleb r hi | NegInf => true | _ => false end.

(** [World.__push_to_collision_candidates]. *)
Definition push_to_collision_candidates
    (pair : BodyPair) (delta_time start_time : R) (w : World) : World :=
  let toc := time_of_collision (heap w (body_a pair)) (heap w (body_b pair)) in
  if np_geb0 toc && np_leb toc (start_time + delta_time) then
    match toc with
    | Fin t => set_candidates w (heappush (t, pair) (_collision_candidates w))
    | _ => w
    end
  else w.

(** [World.__remove_moving_body]. *)
Definition remove_moving_body (body : BodyId) (w : World) : option World :=
  match dict_get Nat.eqb body (_moving_bodies w) with
  | None => Some w
  | Some r =>
      let sweept_body := rec_sweept r in
      if dict_mem sweept_eqb sweept_body (_sweept_bodies w) then
        Some (set_moving w
                (dict_del Nat.eqb body (_moving_bodies w))
                (dict_del sweept_eqb sweept_body (_sweept_bodies w))
                (filter (fun s => negb (sweept_eqb sweept_body s))
                        (_movement_spatial_struct w)))
      else None
  end.

(** [World.__predict_movement]. *)
Definition predict_movement (body : BodyId) (delta_time : R) (w : World) : World :=
  let b := heap w body in
  if is_static b then w
  else
    let new_pos := predict_position b delta_time in
    if point_eqb new_pos (position b) then w
    else
      let sweept_body := calculate_sweept_body (next_sweept w) b new_pos in
      mkWorld (visible_area w) (spatial_struct w) (heap w)
              (dict_set Nat.eqb body (mkRecord (position b) new_pos sweept_body)
                        (_moving_bodies w))
              (dict_set sweept_eqb sweept_body body (_sweept_bodies w))
              (_movement_spatial_struct w ++ [sweept_body])
              (_collision_candidates w) (S (next_sweept w)) (handled w).

Section WorldMethods.
Context {G : Geometry}.

(** Modelled from the spec: [SpatialStructure.query(shape)] gives "all
    indexed objects whose bounding region overlaps shape". *)
Definition query_movement (w : World) (s : Rectangle) : list SweptBody :=
  filter (fun t => overlaps_proxy s (sweept_shape t)) (_movement_spatial_struct w).

Definition query_static (w : World) (s : Rectangle) : list BodyId :=
  filter (fun i => overlaps_body s (bounding_box (heap w i))) (spatial_struct w).

(** The loop of [__query_collisions_with_moving_bodies] over the proxies
    the query returned, [pairs] being the local list of the same name. *)
Fixpoint moving_candidates (body : BodyId) (sweept_body : SweptBody)
    (delta_time start_time : R) (found : list SweptBody)
    (pairs : list BodyPair) (w : World) : option World :=
  match found with
  | [] => Some w
  | sweept_body_b :: rest =>
      if negb (sweept_eqb sweept_body sweept_body_b) then
        match dict_get sweept_eqb sweept_body_b (_sweept_bodies w) with
        | None => None
        | Some other =>
            if negb (Nat.eqb body other) then
              let candidate := mkPair body other in
              if existsb (pair_eqb candidate) pairs then
                moving_candidates body sweept_body delta_time start_time rest pairs w
              else
                moving_candidates body sweept_body delta_time start_time rest
                  (pairs ++ [candidate])
                  (push_to_collision_candidates candidate delta_time start_time w)
            else moving_candidates body sweept_body delta_time start_time rest pairs w
        end
      else moving_candidates body sweept_body delta_time start_time rest pairs w
  end.

(** [World.__query_collisions_with_moving_bodies]. *)
Definition query_collisions_with_moving_bodies
    (body : BodyId) (delta_time start_time : R) (w : World) : option World :=
  match dict_get Nat.eqb body (_moving_bodies w) with
  | None => None
  | Some r =>
      let sweept_body := rec_sweept r in
      moving_candidates body sweept_body delta_time start_time
        (query_movement w (sweept_shape sweept_body)) [] w
  end.

(** The loop of [__query_collisions_with_static_bodies]. *)
Fixpoint static_candidates (body : BodyId) (delta_time start_time : R)
    (found : list BodyId) (pairs : list BodyPair) (w : World) : World :=
  match found with
  | [] => w
  | static_body :: rest =>
      if negb (dict_mem Nat.eqb static_body (_moving_bodies w)) then
        let candidate := mkPair body static_body in
        if existsb (pair_eqb candidate) pairs then
          static_candidates body delta_time start_time rest pairs w
        else
          static_candidates body delta_time start_time rest (pairs ++ [candidate])
            (push_to_collision_candidates candidate delta_time start_time w)
      else static_candidates body delta_time start_time rest pairs w
  end.

(** [World.__query_collisions_with_static_bodies]. *)
Definition query_collisions_with_static_bodies
    (body : BodyId) (delta_time start_time : R) (w : World) : option World :=
  match dict_get Nat.eqb body (_moving_bodies w) with
  | None => None
  | Some r =>
      let sweept_body := rec_sweept r in
      Some (static_candidates body delta_time start_time
              (query_static w (sweept_shape sweept_body)) [] w)
  end.

(** [World.__update_collision_candidates]. *)
Definition update_collision_candidates
    (body : BodyId) (delta_time start_time : R) (w : World) : option World :=
  if negb (dict_mem Nat.eqb body (_moving_bodies w)) then Some w
  else
    w1 <- query_collisions_with_moving_bodies body delta_time start_time w ;;
    query_collisions_with_static_bodies body delta_time start_time w1.

(** [World.__handle_contact]. *)
Definition handle_contact (a b : BodyId) (current_time end_time : R) (w : World)
  : option World :=
  w1 <- remove_moving_body a w ;;
  w2 <- remove_moving_body b w1 ;;
  let remaining_time := end_time - current_time in
  Some (predict_movement b remaining_time (predict_movement a remaining_time w2)).

(** The two velocities [World.__update_body_forces] computes. *)
Definition exchange_v1 (A B : Body) : option Point2D :=
  scalar_div
    (padd (padd (scalar_mult (speed A) (mass A)) (scalar_mult (speed B) (mass B)))
          (scalar_mult (psub (speed B) (speed A)) (mass B)))
    (mass A + mass B).

Definition exchange_v2 (A B : Body) : option Point2D :=
  scalar_div
    (padd (padd (scalar_mult (speed A) (mass A)) (scalar_mult (speed B) (mass B)))
          (scalar_mult (psub (speed A) (speed B)) (mass B)))
    (mass A + mass B).

(** [World.__update_body_forces]. *)
Definition update_body_forces (a b : BodyId) (w : World) : option World :=
  v1 <- exchange_v1 (heap w a) (heap w b) ;;
  v2 <- exchange_v2 (heap w a) (heap w b) ;;
  let w1 := if negb (is_static (heap w a))
            then on_body a (fun x => set_speed x v1) w else w in
  let w2 := if negb (is_static (heap w1 b))
            then on_body b (fun x => set_speed x v2) w1 else w1 in
  Some w2.

(** [World.__resolve_collision]; [1 / 100] is the literal [1e-2]. *)
Definition resolve_collision (a b : BodyId)
    (time_of_collision current_time end_time : R) (w : World) : option World :=
  let handle := is_tangible (heap w a) && is_tangible (heap w b) in
  w' <- (if handle then
           let time_diff := if Reqb time_of_collision 0 then 1 / 100 else 0 in
           let w1 := on_body a (fun x => body_update x (current_time - time_diff)) w in
           let w2 := on_body b (fun x => body_update x (current_time - time_diff)) w1 in
           w3 <- update_body_forces a b w2 ;;
           handle_contact a b current_time end_time w3
         else Some w) ;;
  Some (handle_collision b a (handle_collision a b w')).

(** The shape [__check_collision] compares for one body: the true shape,
    moved to the position at the time of collision when the body holds a
    moving record and that time is positive. *)
Definition comparing_shape (body : BodyId) (time_of_collision : R) (w : World)
  : Circle :=
  if dict_mem Nat.eqb body (_moving_bodies w) && Rltb 0 time_of_collision
  then center_to (shape (heap w body))
                 (predict_position (heap w body) time_of_collision)
  else shape (heap w body).

(** [World.__check_collision]. *)
Definition check_collision (a b : BodyId)
    (time_of_collision current_time end_time : R) (w : World) : option World :=
  let comparing_shape_a := comparing_shape a time_of_collision w in
  let comparing_shape_b := comparing_shape b time_of_collision w in
  if collides_with comparing_shape_a comparing_shape_b
  then resolve_collision a b time_of_collision current_time end_time w
  else Some w.

(** The loop of [World.__detect_collisions]: [queue] is the content of
    [_collision_candidates], from which the head is popped; nothing is
    pushed while the queue is drained (lemma [check_collision_queue]). *)
Fixpoint drain (queue : list Candidate) (delta_time current_time : R) (w : World)
  : option World :=
  match queue with
  | [] => Some w
  | (time_of_collision, bp) :: rest =>
      w1 <- check_collision (body_a bp) (body_b bp) time_of_collision
              current_time delta_time (set_candidates w rest) ;;
      drain rest delta_time (current_time + time_of_collision) w1
  end.

(** [World.__detect_collisions]. *)
Definition detect_collisions (delta_time : R) (w : World) : option World :=
  let current_time := 0 in
  drain (_collision_candidates w) delta_time current_time w.

(** The phases of [World.update]. *)
Definition reset (w : World) : World :=
  mkWorld (visible_area w) (spatial_struct w) (heap w) [] [] [] []
          (next_sweept w) (handled w).

Definition predict_all (delta_time : R) (w : World) : World :=
  fold_left (fun w' body => predict_movement body delta_time w') (spatial_struct w) w.

Fixpoint broad_phase (bodies : list BodyId) (delta_time : R) (w : World)
  : option World :=
  match bodies with
  | [] => Some w
  | body :: rest =>
      w1 <- update_collision_candidates body delta_time 0 w ;;
      broad_phase rest delta_time w1
  end.

Definition commit (delta_time : R) (w : World) : World :=
  fold_left (fun w' body => on_body body (fun x => body_update x delta_time) w')
            (dict_keys (_moving_bodies w)) w.

(** [World.update] up to its last loop: RESET, PREDICT, BROADPHASE and
    RESOLVE. *)
Definition simulate (delta_time : R) (w : World) : option World :=
  let w1 := predict_all delta_time (reset w) in
  w2 <- broad_phase (dict_keys (_moving_bodies w1)) delta_time w1 ;;
  detect_collisions delta_time w2.

(** [World.update]. *)
Definition update (delta_time : R) (w : World) : option World :=
  w3 <- simulate delta_time w ;;
  Some (commit delta_time w3).
End WorldMethods.

(** ** A concrete geometry and two concrete worlds *)

(** Two circles overlap or touch. *)
Definition circles_touch (c d : Circle) : bool :=
  Rleb ((px (center c) - px (center d)) ^ 2 + (py (center c) - py (center d)) ^ 2)
       ((radius c + radius d) ^ 2).

(** Two axis-aligned rectangles overlap or touch. *)
Definition boxes_overlap (r s : Rectangle) : bool :=
  Rleb (rect_left r) (rect_right s) && Rleb (rect_left s) (rect_right r)
  && Rleb (rect_bottom r) (rect_top s) && Rleb (rect_bottom s) (rect_top r).

Definition box_of_circle (c : Circle) : Rectangle :=
  mkRectangle (mkPoint (px (center c) - radius c) (py (center c) + radius c))
              (mkPoint (px (center c) + radius c) (py (center c) - radius c)).

Definition plain_geometry : Geometry :=
  {| collides_with := circles_touch;
     overlaps_proxy := boxes_overlap;
     overlaps_body := fun r c => boxes_overlap r (box_of_circle c) |}.

Definition origin : Point2D := mkPoint 0 0.

Definition ball (x vx m : R) (static : bool) : Body :=
  mkBody (mkCircle (mkPoint x 0) 1) (mkPoint vx 0) m static true.

Definition world_of (h : BodyId -> Body) : World :=
  mkWorld (mkRectangle origin origin) [0%nat; 1%nat] h [] [] [] [] 0%nat [].

(** A ball of mass 3 rolling at speed 2 towards a static ball of mass 1
    whose centre is 4 away. *)
Definition wall_world : World :=
  world_of (fun i => match i with
                     | O => ball 0 2 3 false
                     | _ => ball 4 0 1 true
                     end).

(** A ball at speed 3 catching up with a ball at speed 1 whose centre is 4
    ahead. *)
Definition chase_world : World :=
  world_of (fun i => match i with
                     | O => ball 0 3 1 false
                     | _ => ball 4 1 1 false
                     end).

(** Two balls with the same velocity, apart and overlapping. *)
Definition drift_a : Body := ball 0 1 1 false.
Definition drift_far : Body := ball 5 1 1 false.
Definition drift_near : Body := ball 1 1 1 false.

(** The example of the specification: radius 5, centres 20 apart, each
    ball at speed 5 towards the other. *)
Definition facing_left : Body :=
  mkBody (mkCircle (mkPoint 0 0) 5) (mkPoint 5 0) 1 false true.
Definition facing_right : Body :=
  mkBody (mkCircle (mkPoint 20 0) 5) (mkPoint (-5) 0) 1 false true.

Definition facing_world : World :=
  world_of (fun i => match i with O => facing_left | _ => facing_right end).

(** A ball and an intangible body that overlaps it. *)
Definition ghost : Body :=
  mkBody (mkCircle (mkPoint 1 0) 1) (mkPoint 0 0) 1 false false.

Definition ghost_world : World :=
  world_of (fun i => match i with O => ball 0 2 3 false | _ => ghost end).

(** The velocity exchange in the words of the specification, by
    components: v1 = (vA mA + vB mB + (vB - vA) mB) / (mA + mB) and
    v2 = (vA mA + vB mB + (vA - vB) mB) / (mA + mB). *)
Definition spec_v1 (vA vB : Point2D) (mA mB : R) : Point2D :=
  mkPoint ((px vA * mA + px vB * mB + (px vB - px vA) * mB) / (mA + mB))
          ((py vA * mA + py vB * mB + (py vB - py vA) * mB) / (mA + mB)).

Definition spec_v2 (vA vB : Point2D) (mA mB : R) : Point2D :=
  mkPoint ((px vA * mA + px vB * mB + (px vA - px vB) * mB) / (mA + mB))
          ((py vA * mA + py vB * mB + (py vA - py vB) * mB) / (mA + mB)).


(** The states of the two worlds after PREDICT and after BROADPHASE of a
    tick of duration 2: all proxies span the ordinates -1 to 1. *)
Definition sweep (n : nat) (left right : R) : SweptBody :=
  mkSwept n (mkRectangle (mkPoint left 1) (mkPoint right (-1))).

Definition tracked (h : BodyId -> Body) (m : list (BodyId * MovingRecord))
    (q : list Candidate) (n : nat) : World :=
  mkWorld (mkRectangle origin origin) [0%nat; 1%nat] h m
          (map (fun e => (rec_sweept (snd e), fst e)) m)
          (map (fun e => rec_sweept (snd e)) m) q n [].

Definition wall_records : list (BodyId * MovingRecord) :=
  [(0%nat, mkRecord (mkPoint 0 0) (mkPoint 4 0) (sweep 0 (-1) 5))].

Definition wall_predicted : World := tracked (heap wall_world) wall_records [] 1.

Definition wall_queued : World :=
  tracked (heap wall_world) wall_records [(1, mkPair 0%nat 1%nat)] 1.

Definition chase_records : list (BodyId * MovingRecord) :=
  [(0%nat, mkRecord (mkPoint 0 0) (mkPoint 6 0) (sweep 0 (-1) 7));
   (1%nat, mkRecord (mkPoint 4 0) (mkPoint 6 0) (sweep 1 3 7))].

Definition chase_predicted : World := tracked (heap chase_world) chase_records [] 2.

Definition chase_queued : World :=
  tracked (heap chase_world) chase_records
          [(1, mkPair 0%nat 1%nat); (1, mkPair 1%nat 0%nat)] 2.



(** ** Invariants of the transient state of a tick *)

(** No static body holds a moving record, and every proxy of the Movement
    Index belongs to a non-static body. *)
Definition no_static_tracked (w : World) : Prop :=
  (forall body, dict_mem Nat.eqb body (_moving_bodies w) = true ->
                is_static (heap w body) = false)
  /\ (forall s, In s (_movement_spatial_struct w) ->
        exists body, dict_get sweept_eqb s (_sweept_bodies w) = Some body
                     /\ is_static (heap w body) = false).

(** Each body has at most one moving record. *)
Definition one_record_per_body (w : World) : Prop :=
  NoDup (dict_keys (_moving_bodies w)).


(** Every proxy of the Movement Index is a key of the side table. *)
Definition proxies_indexed (w : World) : Prop :=
  forall s, In s (_movement_spatial_struct w) ->
            dict_mem sweept_eqb s (_sweept_bodies w) = true.

(** [w'] tracks the same records and proxies as [w], over bodies with the
    same [is_static] flags. *)
Definition same_tracking (w w' : World) : Prop :=
  _moving_bodies w' = _moving_bodies w
  /\ _sweept_bodies w' = _sweept_bodies w
  /\ _movement_spatial_struct w' = _movement_spatial_struct w
  /\ (forall body, is_static (heap w' body) = is_static (heap w body)).

(** ** The rest of the world and of the demonstration *)

(** Modelled from the spec: [Body.move_to(position)] "teleports body". *)
Definition move_to (b : Body) (p : Point2D) : Body :=
  mkBody (center_to (bounding_box b) p) (speed b) (mass b) (is_static b) (is_tangible b).

(** The window of [tests/simple/moving_balls.py]. *)
Definition width : R := 320.
Definition height : R := 240.

(** [Ball.update] of [tests/simple/moving_balls.py], on the body of the
    ball: the four wall tests in their order, each reading the velocity the
    previous one left, then the clamped position; [1 / 10 ^ 10] is the
    literal [1e-10] and [delta_time] is not used. *)
Definition Ball_update (body : Body) (delta_time : R) : Body :=
  let b1 := if Rleb width (px (position body) + radius (shape body))
            then set_speed body (mkPoint (- px (speed body)) (py (speed body)))
            else body in
  let b2 := if Rleb (px (position b1) - radius (shape b1)) 0
            then set_speed b1 (mkPoint (- px (speed b1)) (py (speed b1)))
            else b1 in
  let b3 := if Rleb height (py (position b2) + radius (shape b2))
            then set_speed b2 (mkPoint (px (speed b2)) (- py (speed b2)))
            else b2 in
  let b4 := if Rleb (py (position b3) - radius (shape b3)) 0
            then set_speed b3 (mkPoint (px (speed b3)) (- py (speed b3)))
            else b3 in
  let position' :=
    mkPoint
      (Rmax (0 + radius (shape b4)) (Rmin (width - radius (shape b4)) (px (position b4))))
      (Rmax (0 - radius (shape b4))
            (Rmin (height - radius (shape b4) - 1 / 10 ^ 10) (py (position b4)))) in
  if negb (point_eqb position' (position b4)) then move_to b4 position' else b4.

(** Every candidate of the queue has its time within the tick, two distinct
    bodies, and a first body that holds a moving record. *)
Definition well_queued (delta_time : R) (w : World) : Prop :=
  forall t p, In (t, p) (_collision_candidates w) ->
    0 <= t <= delta_time
    /\ body_a p <> body_b p
    /\ dict_mem Nat.eqb (body_a p) (_moving_bodies w) = true.

(** No proxy of the side table or of the Movement Index has the identity of
    the next proxy or a later one. *)
Definition fresh_proxies (w : World) : Prop :=
  (forall s body, In (s, body) (_sweept_bodies w) -> (sweept_id s < next_sweept w)%nat)
  /\ (forall s, In s (_movement_spatial_struct w) -> (sweept_id s < next_sweept w)%nat).

(** The records, the side table and the Movement Index agree: one record
    per body, every proxy of the index and of a record is a key of the side
    table, and two records never share a proxy. *)
Definition records_sound (w : World) : Prop :=
  one_record_per_body w
  /\ proxies_indexed w
  /\ (forall body r, In (body, r) (_moving_bodies w) ->
        dict_mem sweept_eqb (rec_sweept r) (_sweept_bodies w) = true
        /\ (sweept_id (rec_sweept r) < next_sweept w)%nat)
  /\ (forall b1 r1 b2 r2,
        In (b1, r1) (_moving_bodies w) -> In (b2, r2) (_moving_bodies w) ->
        sweept_id (rec_sweept r1) = sweept_id (rec_sweept r2) -> b1 = b2).

(** [w'] has the records, the side table, the Movement Index and the next
    proxy identity of [w]. *)
Definition same_records (w w' : World) : Prop :=
  _moving_bodies w' = _moving_bodies w
  /\ _sweept_bodies w' = _sweept_bodies w
  /\ _movement_spatial_struct w' = _movement_spatial_struct w
  /\ next_sweept w' = next_sweept w.

Definition positive_masses (w : World) : Prop :=
  forall body, 0 < mass (heap w body).

(** [w'] has the bodies of [w] up to their positions and velocities, the
    same index and the same visible area. *)
Definition same_makeup (w w' : World) : Prop :=
  spatial_struct w' = spatial_struct w
  /\ visible_area w' = visible_area w
  /\ forall body,
       mass (heap w' body) = mass (heap w body)
       /\ radius (bounding_box (heap w' body)) = radius (bounding_box (heap w body))
       /\ is_static (heap w' body) = is_static (heap w body)
       /\ is_tangible (heap w' body) = is_tangible (heap w body).

(** Two static balls. *)
Definition still_world : World :=
  world_of (fun i => match i with O => ball 0 0 1 true | _ => ball 4 0 1 true end).

(** ** The solver on binary64 floats *)

(** The numbers [__time_of_collision] reads from a body, as the binary64
    floats they are in Python. *)
Record Body64 := mkBody64 {
  x64 : float; y64 : float; radius64 : float; vx64 : float; vy64 : float
}.

(** [World.__time_of_collision] with the operations of binary64 in the
    order of the source: [x ** 2] is the rounded product [x * x], every sum
    and product is rounded left to right, [np.sqrt] and [/] are the IEEE
    ones (a division by zero gives nan or an infinity) and a comparison
    with nan is false. *)
Definition time_of_collision_f64 (body_a body_b : Body64) : float :=
  let distance :=
    (radius64 body_a * radius64 body_a
     + 2 * radius64 body_a * radius64 body_b
     + radius64 body_b * radius64 body_b)%float in
  let a :=
    ((vx64 body_a - vx64 body_b) * (vx64 body_a - vx64 body_b)
     + (vy64 body_a - vy64 body_b) * (vy64 body_a - vy64 body_b))%float in
  let b :=
    (2 * ((x64 body_a - x64 body_b) * (vx64 body_a - vx64 body_b)
          + (y64 body_a - y64 body_b) * (vy64 body_a - vy64 body_b)))%float in
  let c :=
    ((x64 body_a - x64 body_b) * (x64 body_a - x64 body_b)
     + (y64 body_a - y64 body_b) * (y64 body_a - y64 body_b)
     - distance)%float in
  let delta := (b * b - 4 * a * c)%float in
  if (delta <? 0)%float then (-1)%float
  else
    let d := PrimFloat.sqrt delta in
    let t1 := ((- b - d) / (2 * a))%float in
    let t2 := ((- b + d) / (2 * a))%float in
    if (t1 <? 0)%float && (0 <? t2)%float && (b <=? 0)%float then 0%float
    else t1.

(** A small body at the origin moving at speed 1 along the abscissas, and a
    large body at rest at (2, 1.6); the radii are 0.1 and 1.5, written as
    the binary64 numbers nearest to 0.1 and to 1.6. *)
Definition small64 : Body64 :=
  mkBody64 0 0 0x1.999999999999ap-4 1 0.
Definition large64 : Body64 :=
  mkBody64 2 0x1.999999999999ap+0 1.5 0 0.

(** ** Two more worlds *)

(** Two balls that move apart. *)
Definition parting_world : World :=
  world_of (fun i => match i with
                     | O => ball 0 (-1) 1 false
                     | _ => ball 4 1 1 false
                     end).

(** Two copies of the ball and the static ball of [wall_world], far from
    each other; the second static ball is 5 away from its ball, so that the
    second contact comes at the time 3/2. *)
Definition relay_world : World :=
  mkWorld (mkRectangle origin origin) [0%nat; 1%nat; 2%nat; 3%nat]
          (fun i => match i with
                    | 0%nat => ball 0 2 3 false
                    | 1%nat => ball 4 0 1 true
                    | 2%nat => ball 100 2 3 false
                    | _ => ball 105 0 1 true
                    end)
          [] [] [] [] 0%nat [].

(** ** Lemmas on comparisons *)

Lemma Rltb_true x y : x < y -> Rltb x y = true.
Proof. intros H. unfold Rltb. destruct (Rlt_dec x y); [reflexivity | contradiction]. Qed.

Lemma Rltb_false x y : ~ x < y -> Rltb x y = false.
Proof. intros H. unfold Rltb. destruct (Rlt_dec x y); [contradiction | reflexivity]. Qed.

Lemma Rleb_true x y : x <= y -> Rleb x y = true.
Proof. intros H. unfold Rleb. destruct (Rle_dec x y); [reflexivity | contradiction]. Qed.

Lemma Rleb_false x y : ~ x <= y -> Rleb x y = false.
Proof. intros H. unfold Rleb. destruct (Rle_dec x y); [contradiction | reflexivity]. Qed.

Lemma Reqb_true x y : x = y -> Reqb x y = true.
Proof. intros H. unfold Reqb. destruct (Req_dec_T x y); [reflexivity | contradiction]. Qed.

Lemma Reqb_false x y : x <> y -> Reqb x y = false.
Proof. intros H. unfold Reqb. destruct (Req_dec_T x y); [contradiction | reflexivity]. Qed.

Lemma np_div_nonzero x y : y <> 0 -> np_div x y = Fin (x / y).
Proof. intros H. unfold np_div. destruct (Req_dec_T y 0); [contradiction | reflexivity]. Qed.

Lemma np_div_zero_zero : np_div 0 0 = NaN.
Proof.
  unfold np_div. destruct (Req_dec_T 0 0) as [_ | H]; [reflexivity | now elim H].
Qed.

(** ** The solver *)

Lemma toc_a_nonneg A B : 0 <= toc_a A B.
Proof. unfold toc_a. apply Rplus_le_le_0_compat; apply Rle_0_sqr. Qed.

Lemma sum_squares_zero x y : x * x + y * y = 0 -> x = 0 /\ y = 0.
Proof.
  intros H. pose proof (Rle_0_sqr x) as Hx. pose proof (Rle_0_sqr y) as Hy.
  unfold Rsqr in *. split; apply Rsqr_0_uniq; unfold Rsqr; lra.
Qed.

Lemma toc_a_zero_iff A B : toc_a A B = 0 <-> speed A = speed B.
Proof.
  unfold toc_a. split.
  - intros H. destruct (speed A) as [ax ay], (speed B) as [bx b_y]. simpl in *.
    destruct (sum_squares_zero _ _ H). f_equal; lra.
  - intros ->. ring.
Qed.

Lemma toc_b_zero A B : speed A = speed B -> toc_b A B = 0.
Proof. intros H. unfold toc_b. rewrite H. ring. Qed.

(** With identical velocities the quotient taken is [0 / 0]. *)
Lemma equal_speed_is_nan A B : speed A = speed B -> time_of_collision A B = NaN.
Proof.
  intros H. unfold time_of_collision, toc_delta.
  assert (Ha : toc_a A B = 0) by (apply toc_a_zero_iff; exact H).
  rewrite (toc_b_zero A B H), Ha.
  replace (0 ^ 2 - 4 * 0 * toc_c A B) with 0 by ring.
  rewrite Rltb_false by lra. rewrite sqrt_0.
  replace (- 0 - 0) with 0 by ring. replace (- 0 + 0) with 0 by ring.
  replace (2 * 0) with 0 by ring.
  rewrite np_div_zero_zero. reflexivity.
Qed.

Lemma toc_distance_sym A B : toc_distance A B = toc_distance B A.
Proof. unfold toc_distance. ring. Qed.

Lemma toc_a_sym A B : toc_a A B = toc_a B A.
Proof. unfold toc_a. ring. Qed.

Lemma toc_b_sym A B : toc_b A B = toc_b B A.
Proof. unfold toc_b. ring. Qed.

Lemma toc_c_sym A B : toc_c A B = toc_c B A.
Proof. unfold toc_c. rewrite (toc_distance_sym A B). ring. Qed.

Lemma toc_delta_sym A B : toc_delta A B = toc_delta B A.
Proof.
  unfold toc_delta. now rewrite (toc_a_sym A B), (toc_b_sym A B), (toc_c_sym A B).
Qed.

(** The solver in terms of the two real roots, when the relative velocity
    is not zero and the discriminant is not negative. *)
Lemma time_of_collision_roots A B :
  toc_a A B <> 0 -> 0 <= toc_delta A B ->
  time_of_collision A B =
  if Rltb (toc_t1 A B) 0 && Rltb 0 (toc_t2 A B) && Rleb (toc_b A B) 0
  then Fin 0 else Fin (toc_t1 A B).
Proof.
  intros Ha Hd. unfold time_of_collision.
  rewrite Rltb_false by lra.
  rewrite !np_div_nonzero by lra.
  reflexivity.
Qed.

(** The coefficients of two circles of radius [r] whose centres are
    [2 r + g] apart along the unit vector [(ux, uy)], closing at speed [s]. *)
Lemma head_on_coefficients A B r g s ux uy :
  radius (bounding_box A) = r -> radius (bounding_box B) = r ->
  ux * ux + uy * uy = 1 ->
  center (bounding_box B)
  = padd (center (bounding_box A)) (scalar_mult (mkPoint ux uy) (2 * r + g)) ->
  psub (speed A) (speed B) = scalar_mult (mkPoint ux uy) s ->
  toc_a A B = s * s
  /\ toc_b A B = - (2 * s * (2 * r + g))
  /\ toc_delta A B = (4 * s * r) * (4 * s * r).
Proof.
  intros Hra Hrb Hu Hc Hv.
  assert (Hvx : px (speed A) - px (speed B) = ux * s)
    by (change (px (psub (speed A) (speed B)) = ux * s); now rewrite Hv).
  assert (Hvy : py (speed A) - py (speed B) = uy * s)
    by (change (py (psub (speed A) (speed B)) = uy * s); now rewrite Hv).
  assert (Ha : toc_a A B = s * s).
  { unfold toc_a. rewrite Hvx, Hvy.
    replace (ux * s * (ux * s) + uy * s * (uy * s))
      with ((ux * ux + uy * uy) * (s * s)) by ring.
    rewrite Hu. ring. }
  assert (Hb : toc_b A B = - (2 * s * (2 * r + g))).
  { unfold toc_b. rewrite Hvx, Hvy, Hc. simpl.
    replace (2 * ((px (center (bounding_box A))
                   - (px (center (bounding_box A)) + ux * (2 * r + g))) * (ux * s)
                  + (py (center (bounding_box A))
                     - (py (center (bounding_box A)) + uy * (2 * r + g))) * (uy * s)))
      with (- (2 * s * (2 * r + g)) * (ux * ux + uy * uy)) by ring.
    rewrite Hu. ring. }
  assert (Hcc : toc_c A B = (2 * r + g) * (2 * r + g) - 4 * r * r).
  { unfold toc_c, toc_distance. rewrite Hra, Hrb, Hc. simpl.
    replace ((px (center (bounding_box A))
              - (px (center (bounding_box A)) + ux * (2 * r + g)))
             * (px (center (bounding_box A))
                - (px (center (bounding_box A)) + ux * (2 * r + g)))
             + (py (center (bounding_box A))
                - (py (center (bounding_box A)) + uy * (2 * r + g)))
               * (py (center (bounding_box A))
                  - (py (center (bounding_box A)) + uy * (2 * r + g)))
             - (r * (r * 1) + 2 * r * r + r * (r * 1)))
      with ((ux * ux + uy * uy) * ((2 * r + g) * (2 * r + g)) - 4 * r * r) by ring.
    rewrite Hu. ring. }
  repeat split; try assumption.
  unfold toc_delta. rewrite Ha, Hb, Hcc. ring.
Qed.

Lemma head_on_time A B r g s ux uy :
  radius (bounding_box A) = r -> radius (bounding_box B) = r ->
  0 <= r -> 0 <= g -> 0 < s ->
  ux * ux + uy * uy = 1 ->
  center (bounding_box B)
  = padd (center (bounding_box A)) (scalar_mult (mkPoint ux uy) (2 * r + g)) ->
  psub (speed A) (speed B) = scalar_mult (mkPoint ux uy) s ->
  time_of_collision A B = Fin (g / s).
Proof.
  intros Hra Hrb Hr Hg Hs Hu Hc Hv.
  destruct (head_on_coefficients A B r g s ux uy Hra Hrb Hu Hc Hv) as (Ha & Hb & Hd).
  assert (Hs2 : 0 < s * s) by (apply Rmult_lt_0_compat; assumption).
  assert (Hsr : 0 <= 4 * s * r)
    by (apply Rmult_le_pos; [lra | assumption]).
  assert (Hroot : sqrt (toc_delta A B) = 4 * s * r)
    by (rewrite Hd; apply sqrt_square; assumption).
  assert (Ht1 : toc_t1 A B = g / s).
  { unfold toc_t1. rewrite Hroot, Ha, Hb. field. lra. }
  rewrite time_of_collision_roots.
  - rewrite Ht1. rewrite (Rltb_false (g / s) 0).
    + reflexivity.
    + apply Rle_not_lt. apply Rmult_le_pos; [assumption |].
      apply Rlt_le, Rinv_0_lt_compat; assumption.
  - rewrite Ha. lra.
  - rewrite Hd. apply Rle_0_sqr.
Qed.

(** C1, on the code as it is: with identical velocities the solver has no
    guard, takes the quotient of 0 by 0 and returns nan, whether the two
    bodies are apart (where -1 is expected) or already overlap (where 0 is
    expected). *)
Theorem equal_velocity_divides_zero_by_zero :
  speed drift_a = speed drift_far
  /\ ~ overlapping drift_a drift_far
  /\ time_of_collision drift_a drift_far = NaN
  /\ speed drift_a = speed drift_near
  /\ overlapping drift_a drift_near
  /\ time_of_collision drift_a drift_near = NaN.
Proof.
  repeat split.
  - unfold overlapping, toc_c, toc_distance. simpl. lra.
  - apply equal_speed_is_nan. reflexivity.
  - unfold overlapping, toc_c, toc_distance. simpl. lra.
  - apply equal_speed_is_nan. reflexivity.
Qed.

(** C4: for two circular bodies with nonzero relative velocity the solver
    returns -1 when the discriminant is negative, 0 when t1 < 0 < t2 and
    b <= 0, and t1 = (-b - sqrt delta) / (2 a) otherwise; for two circles of
    equal radius r whose surfaces are g apart and which close along the line
    of their centres at speed s, it returns g / s. *)
Theorem time_of_collision_cases (A B : Body) :
  speed A <> speed B ->
  (toc_delta A B < 0 -> time_of_collision A B = Fin (-1))
  /\ (0 <= toc_delta A B ->
      toc_t1 A B < 0 -> 0 < toc_t2 A B -> toc_b A B <= 0 ->
      time_of_collision A B = Fin 0)
  /\ (0 <= toc_delta A B ->
      ~ (toc_t1 A B < 0 /\ 0 < toc_t2 A B /\ toc_b A B <= 0) ->
      time_of_collision A B = Fin (toc_t1 A B)
      /\ toc_t1 A B = (- toc_b A B - sqrt (toc_delta A B)) / (2 * toc_a A B))
  /\ (forall r g s ux uy,
        radius (bounding_box A) = r -> radius (bounding_box B) = r ->
        0 <= r -> 0 <= g -> 0 < s ->
        ux * ux + uy * uy = 1 ->
        center (bounding_box B)
        = padd (center (bounding_box A)) (scalar_mult (mkPoint ux uy) (2 * r + g)) ->
        psub (speed A) (speed B) = scalar_mult (mkPoint ux uy) s ->
        time_of_collision A B = Fin (g / s)).
Proof.
  intros Hv.
  assert (Ha : toc_a A B <> 0) by (intros H; apply Hv, toc_a_zero_iff, H).
  split; [| split; [| split]].
  - intros Hd. unfold time_of_collision. now rewrite Rltb_true.
  - intros Hd H1 H2 Hb. rewrite time_of_collision_roots by assumption.
    now rewrite !Rltb_true, Rleb_true.
  - intros Hd Hn. split; [| reflexivity].
    rewrite time_of_collision_roots by assumption.
    unfold Rltb, Rleb.
    destruct (Rlt_dec (toc_t1 A B) 0); [| reflexivity].
    destruct (Rlt_dec 0 (toc_t2 A B)); [| reflexivity].
    destruct (Rle_dec (toc_b A B) 0); [| reflexivity].
    exfalso. apply Hn. repeat split; assumption.
  - intros r g s ux uy. apply head_on_time.
Qed.

Lemma time_of_collision_cases_witness :
  speed facing_left <> speed facing_right
  /\ time_of_collision facing_left facing_right = Fin (10 / 10).
Proof.
  assert (Hv : speed facing_left <> speed facing_right).
  { simpl. intros H. apply (f_equal px) in H. simpl in H. lra. }
  split; [exact Hv |].
  destruct (time_of_collision_cases facing_left facing_right Hv) as (_ & _ & _ & H).
  apply (H 5 10 10 1 0); simpl; try lra; try reflexivity.
  - unfold padd, scalar_mult. simpl. f_equal; lra.
  - unfold psub, scalar_mult. simpl. f_equal; lra.
Defined.

Lemma time_of_collision_swap A B : time_of_collision A B = time_of_collision B A.
Proof.
  unfold time_of_collision.
  now rewrite (toc_delta_sym A B), (toc_b_sym A B), (toc_a_sym A B).
Qed.

(** C10, refuted as stated: on binary64 floats the computation depends on
    the order of its arguments, because the sum of the radius terms is
    rounded in the order of its operands: for the small moving body and the
    large body at rest it returns 2 in one order and -1 in the other. *)
Lemma time_of_collision_depends_on_order :
  time_of_collision_f64 small64 large64 = 2%float
  /\ time_of_collision_f64 large64 small64 = (-1)%float.
Proof. split; vm_compute; reflexivity. Qed.

(** C10, amended: in exact arithmetic, that is up to the rounding of the
    float operations, the time-of-impact computation gives the same value on
    (A, B) and on (B, A). *)
Theorem time_of_collision_symmetric (A B : Body) :
  time_of_collision A B = time_of_collision B A.
Proof. apply time_of_collision_swap. Qed.

(** ** Dicts *)

Section DictFacts.
Context {K V : Type} (eqb : K -> K -> bool).
Hypothesis eqb_refl : forall k, eqb k k = true.
Hypothesis eqb_sym : forall k k', eqb k k' = eqb k' k.
Hypothesis eqb_trans : forall k k' k'', eqb k k' = true -> eqb k' k'' = eqb k k''.

Lemma dict_get_set (k k' : K) (v : V) d :
  dict_get eqb k (dict_set eqb k' v d)
  = if eqb k k' then Some v else dict_get eqb k d.
Proof.
  induction d as [| [k0 v0] d IH]; simpl.
  - reflexivity.
  - destruct (eqb k' k0) eqn:E0; simpl.
    + destruct (eqb k k') eqn:E; [reflexivity |].
      now rewrite (eqb_sym k k0), (eqb_trans k' k0 k E0), (eqb_sym k' k), E.
    + destruct (eqb k k0) eqn:E1.
      * destruct (eqb k k') eqn:E; [| reflexivity].
        rewrite (eqb_trans k k' k0 E), E1 in E0. discriminate.
      * exact IH.
Qed.

Lemma dict_mem_set (k k' : K) (v : V) d :
  dict_mem eqb k (dict_set eqb k' v d) = eqb k k' || dict_mem eqb k d.
Proof.
  unfold dict_mem. rewrite dict_get_set. now destruct (eqb k k').
Qed.

Lemma dict_get_del_other (k k' : K) (d : list (K * V)) :
  eqb k k' = false -> dict_get eqb k (dict_del eqb k' d) = dict_get eqb k d.
Proof.
  intros E. induction d as [| [k0 v0] d IH]; simpl.
  - reflexivity.
  - destruct (eqb k' k0) eqn:E0; simpl.
    + now rewrite (eqb_sym k k0), (eqb_trans k' k0 k E0), (eqb_sym k' k), E.
    + now rewrite IH.
Qed.

Lemma dict_get_In (k : K) (v : V) d :
  dict_get eqb k d = Some v -> exists k0, In (k0, v) d /\ eqb k k0 = true.
Proof.
  induction d as [| [k0 v0] d IH]; simpl; [discriminate |].
  destruct (eqb k k0) eqn:E.
  - intros [= ->]. exists k0. auto.
  - intros H. destruct (IH H) as (k1 & Hin & E1). exists k1. auto.
Qed.

Lemma In_dict_set (k : K) (v : V) d k0 v0 :
  In (k0, v0) (dict_set eqb k v d) -> (k0, v0) = (k, v) \/ In (k0, v0) d.
Proof.
  induction d as [| [k1 v1] d IH]; simpl.
  - intros [H | []]. now left.
  - destruct (eqb k k1); simpl.
    + intros [H | H]; [now left | now right; right].
    + intros [H | H]; [now right; left |].
      destruct (IH H); [now left | now right; right].
Qed.

Lemma In_dict_del (k : K) (d : list (K * V)) x :
  In x (dict_del eqb k d) -> In x d.
Proof.
  induction d as [| [k1 v1] d IH]; simpl; [easy |].
  destruct (eqb k k1); simpl; [now right |].
  intros [H | H]; [now left | right; now apply IH].
Qed.
End DictFacts.

Lemma nat_eqb_trans (k k' k'' : nat) :
  Nat.eqb k k' = true -> Nat.eqb k' k'' = Nat.eqb k k''.
Proof. intros H. apply Nat.eqb_eq in H. now subst. Qed.

Lemma sweept_eqb_refl s : sweept_eqb s s = true.
Proof. apply Nat.eqb_refl. Qed.

Lemma sweept_eqb_sym s t : sweept_eqb s t = sweept_eqb t s.
Proof. apply Nat.eqb_sym. Qed.

Lemma sweept_eqb_trans s t u :
  sweept_eqb s t = true -> sweept_eqb t u = sweept_eqb s u.
Proof. apply nat_eqb_trans. Qed.

Lemma moving_get_set (k k' : BodyId) (v : MovingRecord) d :
  dict_get Nat.eqb k (dict_set Nat.eqb k' v d)
  = if Nat.eqb k k' then Some v else dict_get Nat.eqb k d.
Proof. apply dict_get_set; [apply Nat.eqb_sym | apply nat_eqb_trans]. Qed.

Lemma moving_mem_set (k k' : BodyId) (v : MovingRecord) d :
  dict_mem Nat.eqb k (dict_set Nat.eqb k' v d)
  = Nat.eqb k k' || dict_mem Nat.eqb k d.
Proof. apply dict_mem_set; [apply Nat.eqb_sym | apply nat_eqb_trans]. Qed.

Lemma sweept_get_set (k k' : SweptBody) (v : BodyId) d :
  dict_get sweept_eqb k (dict_set sweept_eqb k' v d)
  = if sweept_eqb k k' then Some v else dict_get sweept_eqb k d.
Proof. apply dict_get_set; [apply sweept_eqb_sym | apply sweept_eqb_trans]. Qed.

Lemma point_eqb_true p q : point_eqb p q = true <-> p = q.
Proof.
  unfold point_eqb, Reqb. destruct p as [x y], q as [x' y']. simpl.
  destruct (Req_dec_T x x'), (Req_dec_T y y'); simpl; split;
    try discriminate; try congruence; intros; reflexivity.
Qed.

Lemma point_eqb_false p q : p <> q -> point_eqb p q = false.
Proof.
  intros H. destruct (point_eqb p q) eqn:E; [| reflexivity].
  now apply point_eqb_true in E.
Qed.

(** ** Prediction *)

Lemma predict_movement_moves body delta_time w :
  is_static (heap w body) = false ->
  predict_position (heap w body) delta_time <> position (heap w body) ->
  predict_movement body delta_time w
  = let b := heap w body in
    let new_pos := predict_position b delta_time in
    let sweept_body := calculate_sweept_body (next_sweept w) b new_pos in
    mkWorld (visible_area w) (spatial_struct w) (heap w)
            (dict_set Nat.eqb body (mkRecord (position b) new_pos sweept_body)
                      (_moving_bodies w))
            (dict_set sweept_eqb sweept_body body (_sweept_bodies w))
            (_movement_spatial_struct w ++ [sweept_body])
            (_collision_candidates w) (S (next_sweept w)) (handled w).
Proof.
  intros Hs Hp. unfold predict_movement. rewrite Hs.
  now rewrite point_eqb_false.
Qed.

Lemma predict_movement_heap body delta_time w :
  heap (predict_movement body delta_time w) = heap w.
Proof.
  unfold predict_movement. destruct (is_static _); [reflexivity |].
  now destruct (point_eqb _ _).
Qed.

(** C8: the swept proxy registered for a moving body, of bounding circle of
    radius r centred at s and predicted end position e, is the rectangle of
    top s.y + r, left s.x - r, bottom e.y - r and right e.x + r; it is the
    proxy of the body's moving record and the one put in the Movement
    Index. *)
Theorem sweept_body_rectangle (body : BodyId) (delta_time : R) (w : World) :
  let b := heap w body in
  let s := center (bounding_box b) in
  let r := radius (bounding_box b) in
  let e := predict_position b delta_time in
  let w' := predict_movement body delta_time w in
  is_static b = false -> e <> s ->
  exists sweept_body,
    sweept_body = calculate_sweept_body (next_sweept w) b e
    /\ dict_get Nat.eqb body (_moving_bodies w') = Some (mkRecord s e sweept_body)
    /\ dict_get sweept_eqb sweept_body (_sweept_bodies w') = Some body
    /\ In sweept_body (_movement_spatial_struct w')
    /\ rect_top (sweept_shape sweept_body) = py s + r
    /\ rect_left (sweept_shape sweept_body) = px s - r
    /\ rect_bottom (sweept_shape sweept_body) = py e - r
    /\ rect_right (sweept_shape sweept_body) = px e + r.
Proof.
  intros b s r e w' Hs He. subst w'.
  rewrite predict_movement_moves by assumption.
  exists (calculate_sweept_body (next_sweept w) b e). cbn zeta. simpl.
  split; [reflexivity |].
  split; [rewrite moving_get_set, Nat.eqb_refl; reflexivity |].
  split; [rewrite sweept_get_set, sweept_eqb_refl; reflexivity |].
  split; [apply in_or_app; right; now left |].
  repeat split.
Qed.

Lemma sweept_body_rectangle_witness :
  exists sweept_body,
    dict_get Nat.eqb 0%nat (_moving_bodies (predict_movement 0%nat 2 wall_world))
    = Some (mkRecord origin (predict_position (ball 0 2 3 false) 2) sweept_body)
    /\ rect_right (sweept_shape sweept_body) = 0 + 2 * 2 + 1.
Proof.
  assert (Hs : is_static (heap wall_world 0%nat) = false) by reflexivity.
  assert (He : predict_position (heap wall_world 0%nat) 2
               <> center (bounding_box (heap wall_world 0%nat))).
  { simpl. unfold predict_position, padd. simpl. intros H.
    apply (f_equal px) in H. simpl in H. lra. }
  destruct (sweept_body_rectangle 0%nat 2 wall_world Hs He)
    as (sw & _ & Hrec & _ & _ & _ & _ & _ & Hright).
  exists sw. split; [exact Hrec | exact Hright].
Defined.

(** ** Resolution *)

Lemma remove_moving_body_heap body w w' :
  remove_moving_body body w = Some w' -> heap w' = heap w.
Proof.
  unfold remove_moving_body.
  destruct (dict_get _ _ _); [| now intros [= <-]].
  destruct (dict_mem _ _ _); [now intros [= <-] | discriminate].
Qed.

Lemma handle_contact_heap a b current_time end_time w w' :
  handle_contact a b current_time end_time w = Some w' -> heap w' = heap w.
Proof.
  unfold handle_contact, bind.
  destruct (remove_moving_body a w) as [w1 |] eqn:E1; [| discriminate].
  destruct (remove_moving_body b w1) as [w2 |] eqn:E2; [| discriminate].
  intros [= <-]. rewrite !predict_movement_heap.
  rewrite (remove_moving_body_heap _ _ _ E2). exact (remove_moving_body_heap _ _ _ E1).
Qed.

Lemma exchange_v1_spec A B :
  mass A + mass B <> 0 ->
  exchange_v1 A B = Some (spec_v1 (speed A) (speed B) (mass A) (mass B)).
Proof.
  intros H. unfold exchange_v1, scalar_div.
  destruct (Req_dec_T (mass A + mass B) 0); [contradiction | reflexivity].
Qed.

Lemma exchange_v2_spec A B :
  mass A + mass B <> 0 ->
  exchange_v2 A B = Some (spec_v2 (speed A) (speed B) (mass A) (mass B)).
Proof.
  intros H. unfold exchange_v2, scalar_div.
  destruct (Req_dec_T (mass A + mass B) 0); [contradiction | reflexivity].
Qed.

(** What [__update_body_forces] leaves in the heap. *)
Lemma update_body_forces_speeds a b w :
  a <> b -> mass (heap w a) + mass (heap w b) <> 0 ->
  exists w',
    update_body_forces a b w = Some w'
    /\ speed (heap w' a)
       = (if is_static (heap w a) then speed (heap w a)
          else spec_v1 (speed (heap w a)) (speed (heap w b))
                       (mass (heap w a)) (mass (heap w b)))
    /\ speed (heap w' b)
       = (if is_static (heap w b) then speed (heap w b)
          else spec_v2 (speed (heap w a)) (speed (heap w b))
                       (mass (heap w a)) (mass (heap w b))).
Proof.
  intros Hab Hm. unfold update_body_forces.
  rewrite exchange_v1_spec, exchange_v2_spec by assumption. cbn [bind].
  eexists. split; [reflexivity |].
  assert (Eab : Nat.eqb a b = false) by now apply Nat.eqb_neq.
  assert (Eba : Nat.eqb b a = false) by (rewrite Nat.eqb_sym; exact Eab).
  destruct (is_static (heap w a)) eqn:Sa; cbn [negb].
  - destruct (is_static (heap w b)) eqn:Sb; cbn [negb].
    + split; reflexivity.
    + cbn. rewrite Eab, Nat.eqb_refl. split; reflexivity.
  - assert (Sb' : is_static (heap (on_body a (fun x => set_speed x
                     (spec_v1 (speed (heap w a)) (speed (heap w b))
                              (mass (heap w a)) (mass (heap w b)))) w) b)
                  = is_static (heap w b)).
    { cbn. now rewrite Eba. }
    rewrite Sb'. destruct (is_static (heap w b)) eqn:Sb; cbn [negb].
    + cbn. rewrite Nat.eqb_refl, Eba. split; reflexivity.
    + cbn. rewrite Eab, !Nat.eqb_refl, Eba. split; reflexivity.
Qed.

Lemma body_update_fields x dt :
  speed (body_update x dt) = speed x
  /\ mass (body_update x dt) = mass x
  /\ is_static (body_update x dt) = is_static x
  /\ is_tangible (body_update x dt) = is_tangible x.
Proof. repeat split. Qed.

Lemma head_on_swap vA vB m :
  m + m <> 0 -> vB = scalar_mult vA (-1) ->
  spec_v1 vA vB m m = vB /\ spec_v2 vA vB m m = vA.
Proof.
  intros Hm ->. destruct vA as [x y]. unfold spec_v1, spec_v2, scalar_mult. simpl.
  split; f_equal; field; exact Hm.
Qed.

(** C5: when a contact between two tangible bodies A and B is resolved, A's
    new velocity is (vA mA + vB mB + (vB - vA) mB) / (mA + mB) and B's is
    (vA mA + vB mB + (vA - vB) mB) / (mA + mB), each assigned only to a
    non-static body, a static body keeping its velocity; two non-static
    bodies of equal mass and opposite velocities swap their velocities. *)
Theorem velocity_exchange (a b : BodyId) (w : World) :
  let A := heap w a in
  let B := heap w b in
  let v1 := if is_static A then speed A
            else spec_v1 (speed A) (speed B) (mass A) (mass B) in
  let v2 := if is_static B then speed B
            else spec_v2 (speed A) (speed B) (mass A) (mass B) in
  a <> b -> mass A + mass B <> 0 ->
  (exists w', update_body_forces a b w = Some w'
              /\ speed (heap w' a) = v1 /\ speed (heap w' b) = v2)
  /\ (forall time_of_collision current_time end_time w',
        is_tangible A && is_tangible B = true ->
        resolve_collision a b time_of_collision current_time end_time w = Some w' ->
        speed (heap w' a) = v1 /\ speed (heap w' b) = v2)
  /\ (is_static A = false -> is_static B = false ->
      mass A = mass B -> speed B = scalar_mult (speed A) (-1) ->
      v1 = speed B /\ v2 = speed A).
Proof.
  intros A B v1 v2 Hab Hm.
  assert (Eab : Nat.eqb a b = false) by now apply Nat.eqb_neq.
  assert (Eba : Nat.eqb b a = false) by (rewrite Nat.eqb_sym; exact Eab).
  split; [| split].
  - exact (update_body_forces_speeds a b w Hab Hm).
  - intros toc ct et w' Ht. unfold resolve_collision. fold A B. rewrite Ht.
    set (dt := ct - (if Reqb toc 0 then 1 / 100 else 0)).
    set (w2 := on_body b (fun x => body_update x dt)
                 (on_body a (fun x => body_update x dt) w)).
    assert (Ha2 : heap w2 a = body_update A dt).
    { subst w2. cbn. now rewrite Eab, Nat.eqb_refl. }
    assert (Hb2 : heap w2 b = body_update B dt).
    { subst w2. cbn. now rewrite Nat.eqb_refl, Eba. }
    destruct (update_body_forces_speeds a b w2 Hab) as (w3 & E3 & Sa & Sb).
    { rewrite Ha2, Hb2. exact Hm. }
    rewrite E3. cbn [bind].
    destruct (handle_contact a b ct et w3) as [w4 |] eqn:E4; [| discriminate].
    cbn [bind]. intros [= <-]. cbn [handle_collision heap].
    rewrite (handle_contact_heap _ _ _ _ _ _ E4), Sa, Sb, Ha2, Hb2.
    split; reflexivity.
  - intros Sa Sb Hmm Hv. subst v1 v2. rewrite Sa, Sb, <- Hmm.
    apply head_on_swap; [| exact Hv].
    replace (mass A + mass A) with (mass A + mass B) by (rewrite Hmm; reflexivity).
    exact Hm.
Qed.

Lemma velocity_exchange_witness :
  exists w', update_body_forces 0%nat 1%nat facing_world = Some w'
             /\ speed (heap w' 0%nat) = speed facing_right
             /\ speed (heap w' 1%nat) = speed facing_left.
Proof.
  assert (Hab : 0%nat <> 1%nat) by discriminate.
  assert (Hm : mass (heap facing_world 0%nat) + mass (heap facing_world 1%nat) <> 0)
    by (simpl; lra).
  destruct (velocity_exchange 0%nat 1%nat facing_world Hab Hm)
    as ((w' & E & Sa & Sb) & _ & Hswap).
  destruct Hswap as (H1 & H2); try reflexivity.
  { simpl. unfold scalar_mult. simpl. f_equal; lra. }
  exists w'. split; [exact E |]. split.
  - rewrite Sa. exact H1.
  - rewrite Sb. exact H2.
Defined.

(** C7: a popped candidate that passes the narrow-phase test and has an
    intangible body invokes the collision response of each body with the
    other body as argument, in this order, and changes no body (velocity,
    position) and no moving record, proxy or candidate. *)
Theorem intangible_contact_notifies_only {G : Geometry}
    (a b : BodyId) (time_of_collision current_time end_time : R) (w : World) :
  collides_with (comparing_shape a time_of_collision w)
                (comparing_shape b time_of_collision w) = true ->
  is_tangible (heap w a) && is_tangible (heap w b) = false ->
  exists w',
    check_collision a b time_of_collision current_time end_time w = Some w'
    /\ handled w' = handled w ++ [(a, b); (b, a)]
    /\ heap w' = heap w
    /\ _moving_bodies w' = _moving_bodies w
    /\ _sweept_bodies w' = _sweept_bodies w
    /\ _movement_spatial_struct w' = _movement_spatial_struct w
    /\ _collision_candidates w' = _collision_candidates w.
Proof.
  intros Hc Ht. unfold check_collision. rewrite Hc.
  unfold resolve_collision. rewrite Ht. cbn [bind].
  eexists. split; [reflexivity |]. cbn.
  rewrite <- app_assoc. repeat split.
Qed.

Lemma intangible_contact_notifies_only_witness :
  exists w',
    check_collision (G := plain_geometry) 0%nat 1%nat 0 0 2 ghost_world = Some w'
    /\ handled w' = [(0%nat, 1%nat); (1%nat, 0%nat)]
    /\ heap w' = heap ghost_world.
Proof.
  destruct (intangible_contact_notifies_only (G := plain_geometry)
              0%nat 1%nat 0 0 2 ghost_world) as (w' & E & Hh & Hheap & _).
  - cbn. unfold circles_touch. cbn. apply Rleb_true. lra.
  - reflexivity.
  - exists w'. repeat split; assumption.
Defined.

(** ** No static body is tracked *)

Lemma same_tracking_refl w : same_tracking w w.
Proof. repeat split. Qed.

Lemma same_tracking_trans w1 w2 w3 :
  same_tracking w1 w2 -> same_tracking w2 w3 -> same_tracking w1 w3.
Proof.
  intros (M1 & S1 & T1 & H1) (M2 & S2 & T2 & H2).
  split; [congruence |]. split; [congruence |]. split; [congruence |].
  intros body. now rewrite H2, H1.
Qed.

Lemma same_tracking_no_static w w' :
  same_tracking w w' -> no_static_tracked w -> no_static_tracked w'.
Proof.
  intros (M & S & T & H) (I1 & I2). split.
  - intros body. rewrite M, H. apply I1.
  - intros s. rewrite T, S. intros Hin.
    destruct (I2 s Hin) as (body & Hg & Hs). exists body. now rewrite H.
Qed.

Lemma on_body_tracking body f w :
  (forall x, is_static (f x) = is_static x) ->
  same_tracking w (on_body body f w).
Proof.
  intros Hf. repeat split. intros i. cbn.
  destruct (Nat.eqb i body) eqn:E; [| reflexivity].
  apply Nat.eqb_eq in E. subst i. apply Hf.
Qed.

Lemma set_candidates_tracking w q : same_tracking w (set_candidates w q).
Proof. repeat split. Qed.

Lemma handle_collision_tracking x y w : same_tracking w (handle_collision x y w).
Proof. repeat split. Qed.

Lemma dict_mem_del_true (k k' : BodyId) (d : list (BodyId * MovingRecord)) :
  dict_mem Nat.eqb k (dict_del Nat.eqb k' d) = true -> dict_mem Nat.eqb k d = true.
Proof.
  unfold dict_mem. induction d as [| [k0 v0] d IH]; simpl; [easy |].
  destruct (Nat.eqb k' k0) eqn:E0; simpl.
  - destruct (Nat.eqb k k0); [reflexivity | easy].
  - destruct (Nat.eqb k k0); [reflexivity | exact IH].
Qed.

Lemma no_static_reset w : no_static_tracked (reset w).
Proof. split; cbn; [discriminate | easy]. Qed.

Lemma no_static_predict body delta_time w :
  no_static_tracked w -> no_static_tracked (predict_movement body delta_time w).
Proof.
  intros (I1 & I2).
  destruct (is_static (heap w body)) eqn:Hs.
  { unfold predict_movement. rewrite Hs. now split. }
  destruct (point_eqb (predict_position (heap w body) delta_time)
                      (position (heap w body))) eqn:Hp.
  { unfold predict_movement. rewrite Hs, Hp. now split. }
  unfold predict_movement. rewrite Hs, Hp. split; cbn.
  - intros i. rewrite moving_mem_set.
    destruct (Nat.eqb i body) eqn:E.
    + apply Nat.eqb_eq in E. now subst i.
    + apply I1.
  - intros s Hin. rewrite sweept_get_set.
    destruct (sweept_eqb s _) eqn:E; [now exists body |].
    apply in_app_or in Hin. destruct Hin as [Hin | [<- | []]].
    + exact (I2 s Hin).
    + now rewrite sweept_eqb_refl in E.
Qed.

Lemma no_static_remove body w w' :
  remove_moving_body body w = Some w' ->
  no_static_tracked w -> no_static_tracked w'.
Proof.
  unfold remove_moving_body.
  destruct (dict_get Nat.eqb body (_moving_bodies w)) as [r |]; [| now intros [= <-]].
  destruct (dict_mem sweept_eqb _ _); [| discriminate].
  intros [= <-] (I1 & I2). split; cbn.
  - intros i Hi. apply I1. exact (dict_mem_del_true _ _ _ Hi).
  - intros s Hin. apply filter_In in Hin. destruct Hin as (Hin & E).
    apply negb_true_iff in E.
    rewrite (dict_get_del_other sweept_eqb sweept_eqb_sym sweept_eqb_trans).
    + exact (I2 s Hin).
    + now rewrite sweept_eqb_sym.
Qed.

(** The broad phase only pushes candidates. *)
Lemma push_frame candidate delta_time start_time w :
  exists q, push_to_collision_candidates candidate delta_time start_time w
            = set_candidates w q.
Proof.
  unfold push_to_collision_candidates.
  destruct (np_geb0 _ && np_leb _ _).
  - destruct (time_of_collision _ _); eauto; exists (_collision_candidates w);
      now destruct w.
  - exists (_collision_candidates w). now destruct w.
Qed.

Lemma set_candidates_twice w q q' :
  set_candidates (set_candidates w q) q' = set_candidates w q'.
Proof. reflexivity. Qed.

Section BroadPhaseFrame.
Context {G : Geometry}.

Lemma moving_candidates_frame body sweept_body delta_time start_time found :
  forall pairs q w w',
    moving_candidates body sweept_body delta_time start_time found pairs
      (set_candidates w q) = Some w' ->
    exists q', w' = set_candidates w q'.
Proof.
  induction found as [| s rest IH]; intros pairs q w w'; simpl.
  - intros [= <-]. eauto.
  - destruct (negb (sweept_eqb sweept_body s)); [| apply IH].
    destruct (dict_get sweept_eqb s (_sweept_bodies w)) as [other |]; [| discriminate].
    destruct (negb (Nat.eqb body other)); [| apply IH].
    destruct (existsb _ pairs); [apply IH |].
    destruct (push_frame (mkPair body other) delta_time start_time
                         (set_candidates w q)) as (q1 & ->).
    rewrite set_candidates_twice. apply IH.
Qed.

Lemma static_candidates_frame body delta_time start_time found :
  forall pairs q w,
    exists q', static_candidates body delta_time start_time found pairs
                 (set_candidates w q) = set_candidates w q'.
Proof.
  induction found as [| s rest IH]; intros pairs q w; simpl.
  - eauto.
  - destruct (negb (dict_mem Nat.eqb s (_moving_bodies w))); [| apply IH].
    destruct (existsb _ pairs); [apply IH |].
    destruct (push_frame (mkPair body s) delta_time start_time
                         (set_candidates w q)) as (q1 & ->).
    rewrite set_candidates_twice. apply IH.
Qed.

Lemma set_candidates_same w : set_candidates w (_collision_candidates w) = w.
Proof. now destruct w. Qed.

Lemma update_collision_candidates_frame body delta_time start_time w w' :
  update_collision_candidates body delta_time start_time w = Some w' ->
  exists q, w' = set_candidates w q.
Proof.
  unfold update_collision_candidates.
  destruct (negb (dict_mem Nat.eqb body (_moving_bodies w))).
  { intros [= <-]. exists (_collision_candidates w). now rewrite set_candidates_same. }
  unfold bind, query_collisions_with_moving_bodies.
  destruct (dict_get Nat.eqb body (_moving_bodies w)) as [r |]; [| discriminate].
  destruct (moving_candidates _ _ _ _ _ _ w) as [w1 |] eqn:E1; [| discriminate].
  rewrite <- (set_candidates_same w) in E1 at 2.
  apply moving_candidates_frame in E1. destruct E1 as (q1 & ->).
  unfold query_collisions_with_static_bodies. cbn [_moving_bodies set_candidates].
  destruct (dict_get Nat.eqb body (_moving_bodies w)); [| discriminate].
  intros [= <-]. apply static_candidates_frame.
Qed.

Lemma broad_phase_frame bodies delta_time :
  forall w w', broad_phase bodies delta_time w = Some w' ->
               exists q, w' = set_candidates w q.
Proof.
  induction bodies as [| body rest IH]; intros w w'; simpl.
  - intros [= <-]. exists (_collision_candidates w). now rewrite set_candidates_same.
  - unfold bind.
    destruct (update_collision_candidates body delta_time 0 w) as [w1 |] eqn:E1;
      [| discriminate].
    apply update_collision_candidates_frame in E1. destruct E1 as (q1 & ->).
    intros H. apply IH in H. destruct H as (q2 & ->). now exists q2.
Qed.
End BroadPhaseFrame.

(** ** What the resolution leaves alone *)

Lemma predict_movement_queue body delta_time w :
  _collision_candidates (predict_movement body delta_time w) = _collision_candidates w
  /\ handled (predict_movement body delta_time w) = handled w.
Proof.
  unfold predict_movement. destruct (is_static _); [now split |].
  now destruct (point_eqb _ _).
Qed.

Lemma remove_moving_body_queue body w w' :
  remove_moving_body body w = Some w' ->
  _collision_candidates w' = _collision_candidates w /\ handled w' = handled w.
Proof.
  unfold remove_moving_body.
  destruct (dict_get _ _ _); [| now intros [= <-]].
  destruct (dict_mem _ _ _); [now intros [= <-] | discriminate].
Qed.

Lemma update_body_forces_tracking a b w w' :
  update_body_forces a b w = Some w' ->
  same_tracking w w' /\ _collision_candidates w' = _collision_candidates w
  /\ handled w' = handled w.
Proof.
  unfold update_body_forces, bind.
  destruct (exchange_v1 _ _) as [v1 |]; [| discriminate].
  destruct (exchange_v2 _ _) as [v2 |]; [| discriminate].
  intros [= <-].
  set (w1 := if negb (is_static (heap w a))
             then on_body a (fun x => set_speed x v1) w else w).
  assert (H1 : same_tracking w w1 /\ _collision_candidates w1 = _collision_candidates w
               /\ handled w1 = handled w).
  { subst w1. destruct (negb _).
    - split; [now apply on_body_tracking | now split].
    - split; [apply same_tracking_refl | now split]. }
  destruct H1 as (T1 & Q1 & L1).
  destruct (negb (is_static (heap w1 b))).
  - split; [| now split].
    apply (same_tracking_trans _ _ _ T1). now apply on_body_tracking.
  - now split.
Qed.

Lemma handle_contact_queue a b current_time end_time w w' :
  handle_contact a b current_time end_time w = Some w' ->
  _collision_candidates w' = _collision_candidates w.
Proof.
  unfold handle_contact, bind.
  destruct (remove_moving_body a w) as [w1 |] eqn:E1; [| discriminate].
  destruct (remove_moving_body b w1) as [w2 |] eqn:E2; [| discriminate].
  intros [= <-].
  rewrite (proj1 (predict_movement_queue _ _ _)), (proj1 (predict_movement_queue _ _ _)).
  rewrite (proj1 (remove_moving_body_queue _ _ _ E2)).
  exact (proj1 (remove_moving_body_queue _ _ _ E1)).
Qed.

(** Nothing is pushed while a candidate is checked and resolved. *)
Lemma check_collision_queue {G : Geometry} a b toc current_time end_time w w' :
  check_collision a b toc current_time end_time w = Some w' ->
  _collision_candidates w' = _collision_candidates w.
Proof.
  unfold check_collision. destruct (collides_with _ _); [| now intros [= <-]].
  unfold resolve_collision.
  destruct (is_tangible (heap w a) && is_tangible (heap w b)).
  - unfold bind at 1.
    match goal with |- context [update_body_forces a b ?x] => set (w2 := x) end.
    unfold bind at 1.
    destruct (update_body_forces a b w2) as [w3 |] eqn:E3; [| discriminate].
    destruct (handle_contact a b current_time end_time w3) as [w4 |] eqn:E4;
      [| discriminate].
    intros [= <-]. cbn [handle_collision _collision_candidates].
    rewrite (handle_contact_queue _ _ _ _ _ _ E4).
    destruct (update_body_forces_tracking _ _ _ _ E3) as (_ & Hq & _).
    rewrite Hq. reflexivity.
  - cbn [bind]. now intros [= <-].
Qed.

(** The queue is empty when the loop ends. *)
Lemma drain_queue {G : Geometry} queue delta_time :
  forall current_time w w',
    _collision_candidates w = queue ->
    drain queue delta_time current_time w = Some w' ->
    _collision_candidates w' = [].
Proof.
  induction queue as [| [toc bp] rest IH]; intros ct w w' Hq; simpl.
  - now intros [= <-].
  - unfold bind.
    destruct (check_collision _ _ _ _ _ _) as [w1 |] eqn:E1; [| discriminate].
    apply IH. now rewrite (check_collision_queue _ _ _ _ _ _ _ E1).
Qed.

Section TickInvariant.
Context {G : Geometry}.
Variable P : World -> Prop.
Hypothesis P_tracking : forall w w', same_tracking w w' -> P w -> P w'.
Hypothesis P_predict : forall body dt w, P w -> P (predict_movement body dt w).
Hypothesis P_remove :
  forall body w w', remove_moving_body body w = Some w' -> P w -> P w'.

Lemma inv_handle_contact a b current_time end_time w w' :
  handle_contact a b current_time end_time w = Some w' -> P w -> P w'.
Proof.
  unfold handle_contact, bind.
  destruct (remove_moving_body a w) as [w1 |] eqn:E1; [| discriminate].
  destruct (remove_moving_body b w1) as [w2 |] eqn:E2; [| discriminate].
  intros [= <-] H. apply P_predict, P_predict.
  eapply P_remove; [exact E2 |]. eapply P_remove; [exact E1 | exact H].
Qed.

Lemma inv_resolve_collision a b toc current_time end_time w w' :
  resolve_collision a b toc current_time end_time w = Some w' -> P w -> P w'.
Proof.
  unfold resolve_collision.
  destruct (is_tangible (heap w a) && is_tangible (heap w b)).
  - unfold bind at 1.
    match goal with |- context [update_body_forces a b ?x] => set (w2 := x) end.
    unfold bind at 1.
    destruct (update_body_forces a b w2) as [w3 |] eqn:E3; [| discriminate].
    destruct (handle_contact a b current_time end_time w3) as [w4 |] eqn:E4;
      [| discriminate].
    intros [= <-] H.
    apply (P_tracking w4);
      [eapply same_tracking_trans; apply handle_collision_tracking |].
    eapply inv_handle_contact; [exact E4 |].
    apply (P_tracking w2); [exact (proj1 (update_body_forces_tracking _ _ _ _ E3)) |].
    subst w2. eapply P_tracking; [| exact H].
    eapply same_tracking_trans; now apply on_body_tracking.
  - cbn [bind]. intros [= <-] H.
    eapply P_tracking; [| exact H].
    eapply same_tracking_trans; apply handle_collision_tracking.
Qed.

Lemma inv_check_collision a b toc current_time end_time w w' :
  check_collision a b toc current_time end_time w = Some w' -> P w -> P w'.
Proof.
  unfold check_collision. destruct (collides_with _ _).
  - apply inv_resolve_collision.
  - now intros [= <-].
Qed.

Lemma inv_drain queue delta_time :
  forall current_time w w',
    drain queue delta_time current_time w = Some w' -> P w -> P w'.
Proof.
  induction queue as [| [toc bp] rest IH]; intros ct w w'; simpl.
  - now intros [= <-].
  - unfold bind.
    destruct (check_collision _ _ _ _ _ _) as [w1 |] eqn:E1; [| discriminate].
    intros H Hw. eapply IH; [exact H |].
    eapply inv_check_collision; [exact E1 |].
    eapply P_tracking; [apply set_candidates_tracking | exact Hw].
Qed.

Lemma inv_predict_list delta_time bodies :
  forall w, P w ->
    P (fold_left (fun w' body => predict_movement body delta_time w') bodies w).
Proof.
  induction bodies as [| body rest IH]; intros w H; simpl; [exact H |].
  apply IH, P_predict, H.
Qed.

Lemma inv_broad_phase bodies delta_time w w' :
  broad_phase bodies delta_time w = Some w' -> P w -> P w'.
Proof.
  intros E H. destruct (broad_phase_frame _ _ _ _ E) as (q & ->).
  eapply P_tracking; [apply set_candidates_tracking | exact H].
Qed.

Lemma inv_commit_list delta_time bodies :
  forall w, P w ->
    P (fold_left (fun w' body => on_body body (fun x => body_update x delta_time) w')
                 bodies w).
Proof.
  induction bodies as [| body rest IH]; intros w H; simpl; [exact H |].
  apply IH. eapply P_tracking; [| exact H]. now apply on_body_tracking.
Qed.

Hypothesis P_reset : forall w, P (reset w).

Lemma inv_simulate delta_time w w' :
  simulate delta_time w = Some w' -> P w'.
Proof.
  unfold simulate, bind.
  destruct (broad_phase _ _ _) as [w2 |] eqn:E2; [| discriminate].
  intros E3. eapply inv_drain; [exact E3 |].
  eapply inv_broad_phase; [exact E2 |].
  apply inv_predict_list, P_reset.
Qed.

Lemma inv_update delta_time w w' :
  update delta_time w = Some w' -> P w'.
Proof.
  unfold update, bind.
  destruct (simulate delta_time w) as [w3 |] eqn:E3; [| discriminate].
  intros [= <-]. apply inv_commit_list. eapply inv_simulate. exact E3.
Qed.
End TickInvariant.

(** ** One record per body *)

Lemma dict_keys_set_in (k : BodyId) (v : MovingRecord) d k0 :
  In k0 (dict_keys (dict_set Nat.eqb k v d)) -> k0 = k \/ In k0 (dict_keys d).
Proof.
  induction d as [| [k1 v1] d IH]; simpl.
  - intros [H | []]. now left.
  - destruct (Nat.eqb k k1) eqn:E; simpl.
    + apply Nat.eqb_eq in E. subst k1. intros [H | H]; [now left | now right; right].
    + intros [H | H]; [now right; left |].
      destruct (IH H); [now left | now right; right].
Qed.

Lemma dict_keys_set_nodup (k : BodyId) (v : MovingRecord) d :
  NoDup (dict_keys d) -> NoDup (dict_keys (dict_set Nat.eqb k v d)).
Proof.
  induction d as [| [k1 v1] d IH]; simpl; intros H.
  - constructor; [easy | constructor].
  - inversion H as [| ? ? Hn Hd]; subst.
    destruct (Nat.eqb k k1) eqn:E; simpl.
    + apply Nat.eqb_eq in E. subst k1. now constructor.
    + constructor; [| now apply IH].
      intros Hin. apply dict_keys_set_in in Hin. destruct Hin as [-> | Hin].
      * now rewrite Nat.eqb_refl in E.
      * contradiction.
Qed.

Lemma dict_keys_del_in (k : BodyId) (d : list (BodyId * MovingRecord)) k0 :
  In k0 (dict_keys (dict_del Nat.eqb k d)) -> In k0 (dict_keys d).
Proof.
  induction d as [| [k1 v1] d IH]; simpl; [easy |].
  destruct (Nat.eqb k k1); simpl; [now right |].
  intros [H | H]; [now left | right; now apply IH].
Qed.

Lemma dict_keys_del_nodup (k : BodyId) (d : list (BodyId * MovingRecord)) :
  NoDup (dict_keys d) -> NoDup (dict_keys (dict_del Nat.eqb k d)).
Proof.
  induction d as [| [k1 v1] d IH]; simpl; intros H; [constructor |].
  inversion H as [| ? ? Hn Hd]; subst.
  destruct (Nat.eqb k k1); simpl; [assumption |].
  constructor; [| now apply IH].
  intros Hin. apply Hn. exact (dict_keys_del_in _ _ _ Hin).
Qed.

Lemma dict_mem_keys (k : BodyId) (d : list (BodyId * MovingRecord)) :
  dict_mem Nat.eqb k d = true <-> In k (dict_keys d).
Proof.
  unfold dict_mem. induction d as [| [k1 v1] d IH]; simpl.
  - split; [discriminate | easy].
  - destruct (Nat.eqb k k1) eqn:E.
    + apply Nat.eqb_eq in E. subst k1. split; auto.
    + rewrite IH. split; [now right |].
      intros [H | H]; [| exact H]. subst k1. now rewrite Nat.eqb_refl in E.
Qed.

Lemma dict_mem_del_same (k : BodyId) (d : list (BodyId * MovingRecord)) :
  NoDup (dict_keys d) -> dict_mem Nat.eqb k (dict_del Nat.eqb k d) = false.
Proof.
  intros H. destruct (dict_mem Nat.eqb k (dict_del Nat.eqb k d)) eqn:E; [| reflexivity].
  exfalso. apply dict_mem_keys in E. revert E.
  induction d as [| [k1 v1] d IH]; simpl; [easy |].
  inversion H as [| ? ? Hn Hd]; subst.
  destruct (Nat.eqb k k1) eqn:E1; simpl.
  - apply Nat.eqb_eq in E1. now subst k1.
  - intros [-> | Hin]; [now rewrite Nat.eqb_refl in E1 | now apply IH].
Qed.

Lemma dict_mem_del_other (k k' : BodyId) (d : list (BodyId * MovingRecord)) :
  k <> k' -> dict_mem Nat.eqb k (dict_del Nat.eqb k' d) = dict_mem Nat.eqb k d.
Proof.
  intros H. unfold dict_mem.
  rewrite (dict_get_del_other Nat.eqb Nat.eqb_sym nat_eqb_trans);
    [reflexivity | now apply Nat.eqb_neq].
Qed.

Lemma one_record_tracking w w' :
  same_tracking w w' -> one_record_per_body w -> one_record_per_body w'.
Proof. intros (M & _). unfold one_record_per_body. now rewrite M. Qed.

Lemma one_record_predict body delta_time w :
  one_record_per_body w -> one_record_per_body (predict_movement body delta_time w).
Proof.
  unfold predict_movement, one_record_per_body.
  destruct (is_static _); [easy |]. destruct (point_eqb _ _); [easy |].
  cbn. apply dict_keys_set_nodup.
Qed.

Lemma one_record_remove body w w' :
  remove_moving_body body w = Some w' ->
  one_record_per_body w -> one_record_per_body w'.
Proof.
  unfold remove_moving_body, one_record_per_body.
  destruct (dict_get _ _ _); [| now intros [= <-]].
  destruct (dict_mem _ _ _); [| discriminate].
  intros [= <-]. cbn. apply dict_keys_del_nodup.
Qed.

Lemma one_record_reset w : one_record_per_body (reset w).
Proof. constructor. Qed.

(** ** Commit *)

Lemma commit_list_heap delta_time bodies :
  forall w body,
    NoDup bodies ->
    heap (fold_left (fun w' i => on_body i (fun x => body_update x delta_time) w')
                    bodies w) body
    = if existsb (Nat.eqb body) bodies
      then body_update (heap w body) delta_time else heap w body.
Proof.
  induction bodies as [| i rest IH]; intros w body Hnd; simpl; [reflexivity |].
  inversion Hnd as [| ? ? Hn Hd]; subst.
  rewrite IH by assumption. cbn.
  destruct (Nat.eqb body i) eqn:E; simpl.
  - apply Nat.eqb_eq in E. subst i.
    destruct (existsb (Nat.eqb body) rest) eqn:Ex; [| reflexivity].
    exfalso. apply existsb_exists in Ex. destruct Ex as (j & Hin & Ej).
    apply Nat.eqb_eq in Ej. now subst j.
  - reflexivity.
Qed.

Lemma existsb_keys (k : BodyId) (d : list (BodyId * MovingRecord)) :
  existsb (Nat.eqb k) (dict_keys d) = dict_mem Nat.eqb k d.
Proof.
  unfold dict_mem. induction d as [| [k1 v1] d IH]; simpl; [reflexivity |].
  destruct (Nat.eqb k k1); [reflexivity | exact IH].
Qed.

Lemma commit_heap delta_time w body :
  one_record_per_body w ->
  heap (commit delta_time w) body
  = if dict_mem Nat.eqb body (_moving_bodies w)
    then body_update (heap w body) delta_time else heap w body.
Proof.
  intros H. unfold commit. rewrite commit_list_heap by exact H.
  now rewrite existsb_keys.
Qed.

(** Which of the two bodies of a resolved contact hold a record again. *)
Lemma predict_movement_mem body delta_time w i :
  dict_mem Nat.eqb i (_moving_bodies (predict_movement body delta_time w))
  = (Nat.eqb i body
     && negb (is_static (heap w body))
     && negb (point_eqb (predict_position (heap w body) delta_time)
                        (position (heap w body))))
    || dict_mem Nat.eqb i (_moving_bodies w).
Proof.
  unfold predict_movement.
  destruct (is_static _); [now rewrite andb_false_r |].
  destruct (point_eqb _ _); [now rewrite andb_false_r |].
  cbn. rewrite moving_mem_set. now rewrite !andb_true_r.
Qed.

Lemma remove_moving_body_mem body w w' i :
  one_record_per_body w ->
  remove_moving_body body w = Some w' ->
  dict_mem Nat.eqb i (_moving_bodies w')
  = negb (Nat.eqb i body) && dict_mem Nat.eqb i (_moving_bodies w).
Proof.
  intros Hnd. unfold remove_moving_body.
  destruct (dict_get Nat.eqb body (_moving_bodies w)) as [r |] eqn:Eg.
  - destruct (dict_mem sweept_eqb _ _); [| discriminate].
    intros [= <-]. cbn. destruct (Nat.eqb i body) eqn:E; simpl.
    + apply Nat.eqb_eq in E. subst i. now apply dict_mem_del_same.
    + apply dict_mem_del_other. now apply Nat.eqb_neq.
  - intros [= <-]. destruct (Nat.eqb i body) eqn:E; simpl; [| reflexivity].
    apply Nat.eqb_eq in E. subst i. unfold dict_mem. now rewrite Eg.
Qed.

Lemma handle_contact_mem a b current_time end_time w w' :
  a <> b -> one_record_per_body w ->
  handle_contact a b current_time end_time w = Some w' ->
  dict_mem Nat.eqb a (_moving_bodies w')
  = negb (is_static (heap w a))
    && negb (point_eqb (predict_position (heap w a) (end_time - current_time))
                       (position (heap w a)))
  /\ dict_mem Nat.eqb b (_moving_bodies w')
     = negb (is_static (heap w b))
       && negb (point_eqb (predict_position (heap w b) (end_time - current_time))
                          (position (heap w b))).
Proof.
  intros Hab Hnd. unfold handle_contact, bind.
  destruct (remove_moving_body a w) as [w1 |] eqn:E1; [| discriminate].
  destruct (remove_moving_body b w1) as [w2 |] eqn:E2; [| discriminate].
  intros [= <-].
  assert (Hnd1 : one_record_per_body w1) by (eapply one_record_remove; eassumption).
  assert (Hh : heap w2 = heap w).
  { rewrite (remove_moving_body_heap _ _ _ E2). exact (remove_moving_body_heap _ _ _ E1). }
  assert (Eab : Nat.eqb a b = false) by now apply Nat.eqb_neq.
  assert (Eba : Nat.eqb b a = false) by (rewrite Nat.eqb_sym; exact Eab).
  rewrite !predict_movement_mem, predict_movement_heap, Hh.
  rewrite !(remove_moving_body_mem _ _ _ _ Hnd1 E2).
  rewrite !(remove_moving_body_mem _ _ _ _ Hnd E1).
  rewrite !Nat.eqb_refl, Eab, Eba. cbn.
  rewrite !orb_false_r. split; reflexivity.
Qed.

(** ** Candidates pushed by the broad phase *)








Lemma push_fields c delta_time start_time w :
  let w1 := push_to_collision_candidates c delta_time start_time w in
  _moving_bodies w1 = _moving_bodies w /\ _sweept_bodies w1 = _sweept_bodies w.
Proof.
  destruct (push_frame c delta_time start_time w) as (q & E).
  cbn zeta. rewrite E. now split.
Qed.

Section BroadPhasePushes.
Context {G : Geometry}.
Variable p : BodyPair.
Local Open Scope nat_scope.






End BroadPhasePushes.


Lemma predict_list_queue delta_time bodies :
  forall w,
    _collision_candidates
      (fold_left (fun w' body => predict_movement body delta_time w') bodies w)
    = _collision_candidates w.
Proof.
  induction bodies as [| body rest IH]; intros w; simpl; [reflexivity |].
  rewrite IH. apply predict_movement_queue.
Qed.

(** ** The broad phase raises no KeyError *)

Lemma proxies_indexed_predict body delta_time w :
  proxies_indexed w -> proxies_indexed (predict_movement body delta_time w).
Proof.
  intros Hi. unfold predict_movement.
  destruct (is_static _); [exact Hi |]. destruct (point_eqb _ _); [exact Hi |].
  intros s. cbn. intros Hin. unfold dict_mem. rewrite sweept_get_set.
  destruct (sweept_eqb s _) eqn:E; [reflexivity |].
  apply in_app_or in Hin. destruct Hin as [Hin | [<- | []]].
  - exact (Hi s Hin).
  - now rewrite sweept_eqb_refl in E.
Qed.

Section BroadPhaseTotal.
Context {G : Geometry}.

Lemma moving_candidates_total body sweept_body delta_time start_time found :
  forall pairs w,
    (forall s, In s found -> dict_mem sweept_eqb s (_sweept_bodies w) = true) ->
    exists w', moving_candidates body sweept_body delta_time start_time found pairs w
               = Some w'.
Proof.
  induction found as [| s rest IH]; intros pairs w Hf; simpl.
  - eauto.
  - assert (Hrest : forall s0, In s0 rest ->
                      dict_mem sweept_eqb s0 (_sweept_bodies w) = true)
      by (intros s0 H0; apply Hf; now right).
    destruct (negb (sweept_eqb sweept_body s)); [| now apply IH].
    pose proof (Hf s (or_introl eq_refl)) as Hs. unfold dict_mem in Hs.
    destruct (dict_get sweept_eqb s (_sweept_bodies w)) as [other |]; [| discriminate].
    destruct (negb (Nat.eqb body other)); [| now apply IH].
    destruct (existsb _ pairs); [now apply IH |].
    apply IH. intros s0 H0.
    rewrite (proj2 (push_fields (mkPair body other) delta_time start_time w)).
    now apply Hrest.
Qed.

Lemma update_collision_candidates_total body delta_time start_time w :
  proxies_indexed w ->
  exists w', update_collision_candidates body delta_time start_time w = Some w'.
Proof.
  intros Hi. unfold update_collision_candidates.
  destruct (dict_mem Nat.eqb body (_moving_bodies w)) eqn:Em; cbn [negb]; [| eauto].
  unfold query_collisions_with_moving_bodies.
  unfold dict_mem in Em.
  destruct (dict_get Nat.eqb body (_moving_bodies w)) as [r |] eqn:Eg; [| discriminate].
  destruct (moving_candidates_total body (rec_sweept r) delta_time start_time
              (query_movement w (sweept_shape (rec_sweept r))) [] w) as (w1 & E1).
  { intros s Hin. apply filter_In in Hin. now apply Hi. }
  rewrite E1. cbn [bind].
  assert (E1' := E1). rewrite <- (set_candidates_same w) in E1' at 2.
  apply moving_candidates_frame in E1'. destruct E1' as (q1 & ->).
  unfold query_collisions_with_static_bodies. cbn [_moving_bodies set_candidates].
  rewrite Eg. eauto.
Qed.

Lemma broad_phase_total delta_time bodies :
  forall w, proxies_indexed w -> exists w', broad_phase bodies delta_time w = Some w'.
Proof.
  induction bodies as [| body rest IH]; intros w Hi; simpl; [eauto |].
  destruct (update_collision_candidates_total body delta_time 0 w Hi) as (w1 & E1).
  rewrite E1. cbn [bind]. apply IH.
  destruct (update_collision_candidates_frame _ _ _ _ _ E1) as (q & ->). exact Hi.
Qed.
End BroadPhaseTotal.

(** ** Two ticks run by hand *)

Arguments Rltb : simpl never.
Arguments Rleb : simpl never.
Arguments Reqb : simpl never.
Arguments time_of_collision : simpl never.

Ltac by_parts :=
  repeat first
    [ reflexivity
    | match goal with
      | |- @eq R _ _ => lra
      | |- @eq _ _ _ => progress f_equal
      end ].

Ltac decide_reals :=
  repeat match goal with
  | |- context [Rltb ?x ?y] =>
      first [rewrite (Rltb_true x y) by lra | rewrite (Rltb_false x y) by lra]
  | |- context [Rleb ?x ?y] =>
      first [rewrite (Rleb_true x y) by lra | rewrite (Rleb_false x y) by lra]
  | |- context [Reqb ?x ?y] =>
      first [rewrite (Reqb_true x y) by lra | rewrite (Reqb_false x y) by lra]
  end.

Ltac run :=
  repeat (progress
    (cbn;
     unfold boxes_overlap, box_of_circle, rect_left, rect_right, rect_top,
       rect_bottom, circles_touch, point_eqb, predict_position, position,
       padd, psub, scalar_mult, push_to_collision_candidates,
       calculate_sweept_body;
     cbn; decide_reals)).

Lemma wall_predict : predict_all 2 (reset wall_world) = wall_predicted.
Proof.
  unfold predict_all, reset. run.
  unfold wall_predicted, tracked, wall_records, sweep. cbn. by_parts.
Qed.

Lemma wall_toc : time_of_collision (ball 0 2 3 false) (ball 4 0 1 true) = Fin 1.
Proof.
  rewrite (head_on_time _ _ 1 2 2 1 0); try reflexivity; try lra.
  - f_equal. lra.
  - cbn. unfold padd, scalar_mult. cbn. by_parts.
  - unfold psub, scalar_mult. cbn. by_parts.
Qed.

Lemma wall_broad_phase :
  broad_phase (G := plain_geometry) (dict_keys (_moving_bodies wall_predicted)) 2
              wall_predicted
  = Some wall_queued.
Proof. run. rewrite wall_toc. run. reflexivity. Qed.

Lemma wall_detect :
  exists w3,
    detect_collisions (G := plain_geometry) 2 wall_queued = Some w3
    /\ handled w3 = [(0%nat, 1%nat); (1%nat, 0%nat)]
    /\ _moving_bodies w3
       = [(0%nat, mkRecord (mkPoint 0 0) (mkPoint 2 0) (sweep 1 (-1) 3))]
    /\ heap w3 0%nat = ball 0 1 3 false
    /\ heap w3 1%nat = ball 4 0 1 true.
Proof.
  unfold detect_collisions. cbn. unfold check_collision, comparing_shape. run.
  unfold resolve_collision. run.
  unfold update_body_forces.
  rewrite exchange_v1_spec, exchange_v2_spec by (cbn; lra). run.
  unfold handle_contact, remove_moving_body. run.
  unfold predict_movement. run.
  eexists. split; [reflexivity |]. cbn.
  unfold sweep, ball, body_update, set_speed, spec_v1, center_to, predict_position,
    position, padd, scalar_mult. cbn.
  repeat split; by_parts.
Qed.

Lemma wall_simulate :
  exists w3,
    simulate (G := plain_geometry) 2 wall_world = Some w3
    /\ handled w3 = [(0%nat, 1%nat); (1%nat, 0%nat)]
    /\ _moving_bodies w3
       = [(0%nat, mkRecord (mkPoint 0 0) (mkPoint 2 0) (sweep 1 (-1) 3))]
    /\ heap w3 0%nat = ball 0 1 3 false
    /\ heap w3 1%nat = ball 4 0 1 true.
Proof.
  unfold simulate. rewrite wall_predict, wall_broad_phase. cbn [bind].
  exact wall_detect.
Qed.

Lemma chase_predict : predict_all 2 (reset chase_world) = chase_predicted.
Proof.
  unfold predict_all, reset. run.
  unfold chase_predicted, tracked, chase_records, sweep. cbn. by_parts.
Qed.

Lemma chase_toc : time_of_collision (ball 0 3 1 false) (ball 4 1 1 false) = Fin 1.
Proof.
  rewrite (head_on_time _ _ 1 2 2 1 0); try reflexivity; try lra.
  - f_equal. lra.
  - cbn. unfold padd, scalar_mult. cbn. by_parts.
  - unfold psub, scalar_mult. cbn. by_parts.
Qed.

Lemma chase_broad_phase :
  broad_phase (G := plain_geometry) (dict_keys (_moving_bodies chase_predicted)) 2
              chase_predicted
  = Some chase_queued.
Proof.
  run. rewrite chase_toc. run.
  rewrite (time_of_collision_swap (ball 4 1 1 false)), chase_toc. run.
  reflexivity.
Qed.

(** ** The claims on the broad phase, the resolution and the commit *)

(** C2, on the code as it is: in a tick of duration 2 the only candidate,
    of time-of-impact 1, is popped and resolved as a tangible contact; the
    record of the moving body is then the one of a re-prediction for the
    whole duration 2 of the tick, not for the remaining time 2 - 1. *)
Theorem first_contact_repredicted_for_whole_tick :
  time_of_collision (heap wall_world 0%nat) (heap wall_world 1%nat) = Fin 1
  /\ exists w3 r,
       simulate (G := plain_geometry) 2 wall_world = Some w3
       /\ handled w3 = [(0%nat, 1%nat); (1%nat, 0%nat)]
       /\ dict_get Nat.eqb 0%nat (_moving_bodies w3) = Some r
       /\ rec_new_pos r = predict_position (heap w3 0%nat) 2
       /\ rec_new_pos r <> predict_position (heap w3 0%nat) (2 - 1).
Proof.
  split; [exact wall_toc |].
  destruct wall_simulate as (w3 & E & Hh & Hm & H0 & H1).
  exists w3. eexists. split; [exact E |]. split; [exact Hh |].
  rewrite Hm, H0. split; [reflexivity |]. cbn.
  unfold predict_position, padd, scalar_mult. cbn. split.
  - by_parts.
  - intros H. apply (f_equal px) in H. cbn in H. lra.
Qed.




(** In [wall_world] the ball whose tangible contact was resolved during the
    tick holds a moving record again at the end of RESOLVE and is advanced
    by the full tick duration 2 at COMMIT. *)
Lemma resolved_body_committed_for_whole_tick :
  exists w3,
    simulate (G := plain_geometry) 2 wall_world = Some w3
    /\ update (G := plain_geometry) 2 wall_world = Some (commit 2 w3)
    /\ In (0%nat, 1%nat) (handled w3)
    /\ is_tangible (heap w3 0%nat) && is_tangible (heap w3 1%nat) = true
    /\ dict_mem Nat.eqb 0%nat (_moving_bodies w3) = true
    /\ heap (commit 2 w3) 0%nat = body_update (heap w3 0%nat) 2
    /\ position (heap w3 0%nat) = mkPoint 0 0
    /\ position (heap (commit 2 w3) 0%nat) = mkPoint (0 + 1 * 2) (0 + 0 * 2).
Proof.
  destruct wall_simulate as (w3 & E & Hh & Hm & H0 & H1).
  exists w3. split; [exact E |].
  split; [unfold update; now rewrite E |].
  split; [rewrite Hh; now left |].
  split; [now rewrite H0, H1 |].
  split; [now rewrite Hm |].
  assert (Hc : heap (commit 2 w3) 0%nat = body_update (heap w3 0%nat) 2).
  { unfold commit. rewrite Hm. reflexivity. }
  split; [exact Hc |]. rewrite Hc, H0. split; reflexivity.
Qed.

(** What COMMIT does: exactly the bodies that hold a moving record at the
    end of RESOLVE are advanced, each by the full tick duration, and no
    other body changes; the resolution of a contact registers a record for
    a body of the contact exactly when the body is not static and its
    re-predicted position differs from its position. *)
Theorem commit_advances_recorded_bodies {G : Geometry}
    (delta_time : R) (w w3 : World) :
  simulate delta_time w = Some w3 ->
  update delta_time w = Some (commit delta_time w3)
  /\ (forall body,
        heap (commit delta_time w3) body
        = if dict_mem Nat.eqb body (_moving_bodies w3)
          then body_update (heap w3 body) delta_time
          else heap w3 body)
  /\ (forall a b current_time v v',
        a <> b -> one_record_per_body v ->
        handle_contact a b current_time delta_time v = Some v' ->
        dict_mem Nat.eqb a (_moving_bodies v')
        = negb (is_static (heap v a))
          && negb (point_eqb (predict_position (heap v a) (delta_time - current_time))
                             (position (heap v a)))
        /\ dict_mem Nat.eqb b (_moving_bodies v')
           = negb (is_static (heap v b))
             && negb (point_eqb (predict_position (heap v b) (delta_time - current_time))
                                (position (heap v b)))).
Proof.
  intros E. split; [unfold update; now rewrite E |]. split.
  - intros body. apply commit_heap.
    apply (inv_simulate one_record_per_body one_record_tracking one_record_predict
                        one_record_remove one_record_reset delta_time w w3 E).
  - intros a b ct v v'. apply handle_contact_mem.
Qed.

Lemma commit_advances_recorded_bodies_witness :
  (exists w3,
      simulate (G := plain_geometry) 2 wall_world = Some w3
      /\ heap (commit 2 w3) 0%nat = body_update (heap w3 0%nat) 2
      /\ heap (commit 2 w3) 1%nat = heap w3 1%nat)
  /\ (exists v',
        handle_contact 0%nat 1%nat 0 2 wall_queued = Some v'
        /\ dict_mem Nat.eqb 0%nat (_moving_bodies v') = true
        /\ dict_mem Nat.eqb 1%nat (_moving_bodies v') = false).
Proof.
  destruct wall_simulate as (w3 & E & Hh & Hm & H0 & H1).
  destruct (commit_advances_recorded_bodies (G := plain_geometry) 2 wall_world w3 E)
    as (_ & Hc & Hr).
  split.
  - exists w3. split; [exact E |]. split.
    + rewrite (Hc 0%nat), Hm. reflexivity.
    + rewrite (Hc 1%nat), Hm. reflexivity.
  - assert (Hv : exists v', handle_contact 0%nat 1%nat 0 2 wall_queued = Some v').
    { unfold handle_contact, remove_moving_body. run. eexists. reflexivity. }
    destruct Hv as (v' & Ev). exists v'. split; [exact Ev |].
    assert (Hab : 0%nat <> 1%nat) by discriminate.
    assert (Hnd : one_record_per_body wall_queued).
    { repeat constructor. intros []. }
    destruct (Hr 0%nat 1%nat 0 wall_queued v' Hab Hnd Ev) as (Ha & Hb).
    rewrite Ha, Hb. split; run; reflexivity.
Defined.

(** C9: movement prediction registers a record and inserts a proxy only for
    a non-static body whose predicted position differs from its position,
    and no static body holds a moving record or has a proxy in the Movement
    Index at any point of a tick: this holds after RESET, is kept by every
    method that changes records, proxies, candidates or bodies, and so holds
    at the end of RESOLVE and after COMMIT. *)
Theorem static_bodies_never_tracked {G : Geometry} (delta_time : R) (w : World) :
  (forall body dt v,
      is_static (heap v body) = true
      \/ predict_position (heap v body) dt = position (heap v body) ->
      predict_movement body dt v = v)
  /\ no_static_tracked (reset w)
  /\ (forall body dt v,
        no_static_tracked v -> no_static_tracked (predict_movement body dt v))
  /\ (forall body v v',
        no_static_tracked v -> remove_moving_body body v = Some v' ->
        no_static_tracked v')
  /\ (forall body dt start_time v v',
        no_static_tracked v ->
        update_collision_candidates body dt start_time v = Some v' ->
        no_static_tracked v')
  /\ (forall a b toc current_time v v',
        no_static_tracked v ->
        check_collision a b toc current_time delta_time v = Some v' ->
        no_static_tracked v')
  /\ (forall w3, simulate delta_time w = Some w3 -> no_static_tracked w3)
  /\ (forall w', update delta_time w = Some w' -> no_static_tracked w').
Proof.
  pose proof same_tracking_no_static as Ht.
  pose proof no_static_predict as Hp.
  pose proof no_static_remove as Hr.
  pose proof no_static_reset as H0.
  split; [| split; [| split; [| split; [| split; [| split; [| split]]]]]].
  - intros body dt v [Hs | He]; unfold predict_movement.
    + now rewrite Hs.
    + destruct (is_static _); [reflexivity |].
      rewrite He. now rewrite (proj2 (point_eqb_true _ _) eq_refl).
  - apply H0.
  - exact Hp.
  - intros body v v' Hv E. exact (Hr body v v' E Hv).
  - intros body dt st v v' Hv E.
    destruct (update_collision_candidates_frame _ _ _ _ _ E) as (q & ->).
    exact (Ht _ _ (set_candidates_tracking v q) Hv).
  - intros a b toc ct v v' Hv E.
    exact (inv_check_collision no_static_tracked Ht Hp Hr _ _ _ _ _ _ _ E Hv).
  - intros w3. apply (inv_simulate no_static_tracked Ht Hp Hr H0).
  - intros w'. apply (inv_update no_static_tracked Ht Hp Hr H0).
Qed.

Lemma static_bodies_never_tracked_witness :
  exists w3,
    simulate (G := plain_geometry) 2 wall_world = Some w3
    /\ no_static_tracked w3
    /\ predict_movement 1%nat 2 wall_world = wall_world.
Proof.
  destruct wall_simulate as (w3 & E & _).
  destruct (static_bodies_never_tracked (G := plain_geometry) 2 wall_world)
    as (Hp & _ & _ & _ & _ & _ & Hs & _).
  exists w3. split; [exact E |]. split.
  - exact (Hs w3 E).
  - apply Hp. left. reflexivity.
Defined.

(** ** More on the solver *)

(** The squared distance of the centres minus the squared sum of the radii,
    after both bodies have moved for the time [t], is the quadratic of the
    solver. *)
Lemma toc_c_after A B t :
  toc_c (body_update A t) (body_update B t)
  = toc_a A B * (t * t) + toc_b A B * t + toc_c A B.
Proof.
  unfold toc_c, toc_a, toc_b, toc_distance, body_update, predict_position,
    position, padd, scalar_mult, center_to.
  cbn [bounding_box center radius px py speed]. ring.
Qed.

Lemma toc_roots_facts A B :
  toc_a A B <> 0 -> 0 <= toc_delta A B ->
  0 < toc_a A B
  /\ toc_t1 A B <= toc_t2 A B
  /\ toc_c A B = toc_a A B * (toc_t1 A B * toc_t2 A B)
  /\ forall t, toc_a A B * (t * t) + toc_b A B * t + toc_c A B
               = toc_a A B * ((t - toc_t1 A B) * (t - toc_t2 A B)).
Proof.
  intros Ha Hd.
  assert (Hpos : 0 < toc_a A B) by (pose proof (toc_a_nonneg A B); lra).
  pose proof (sqrt_pos (toc_delta A B)) as Hs.
  pose proof (sqrt_sqrt _ Hd) as Hsq.
  assert (Hc : toc_c A B
               = (toc_b A B * toc_b A B - sqrt (toc_delta A B) * sqrt (toc_delta A B))
                 / (4 * toc_a A B)).
  { rewrite Hsq. unfold toc_delta. field. exact Ha. }
  unfold toc_t1, toc_t2.
  set (d := sqrt (toc_delta A B)) in *.
  split; [exact Hpos |]. split; [| split].
  - apply Rmult_le_compat_r.
    + apply Rlt_le, Rinv_0_lt_compat. lra.
    + lra.
  - rewrite Hc. field. exact Ha.
  - intros t. rewrite Hc. field. exact Ha.
Qed.

(** X1: with a nonzero relative velocity and a discriminant that is not
    negative, the root t1 is the first instant of contact: the circles moved
    for t1 touch, and moved for any shorter or earlier time they are apart. *)
Theorem first_root_is_first_contact (A B : Body) :
  speed A <> speed B -> 0 <= toc_delta A B ->
  toc_c (body_update A (toc_t1 A B)) (body_update B (toc_t1 A B)) = 0
  /\ forall t, t < toc_t1 A B ->
               ~ overlapping (body_update A t) (body_update B t).
Proof.
  intros Hv Hd.
  assert (Ha : toc_a A B <> 0) by (intros H; apply Hv, toc_a_zero_iff, H).
  destruct (toc_roots_facts A B Ha Hd) as (Hpos & Hle & _ & Hf).
  split.
  - rewrite toc_c_after, Hf. ring.
  - intros t Ht. unfold overlapping. rewrite toc_c_after, Hf.
    apply Rlt_not_le. apply Rmult_lt_0_compat; [exact Hpos |].
    replace ((t - toc_t1 A B) * (t - toc_t2 A B))
      with ((toc_t1 A B - t) * (toc_t2 A B - t)) by ring.
    apply Rmult_lt_0_compat; lra.
Qed.

Lemma facing_delta : toc_delta facing_left facing_right = 40000.
Proof.
  unfold toc_delta, toc_b, toc_a, toc_c, toc_distance. cbn. lra.
Qed.

Lemma first_root_is_first_contact_witness :
  toc_c (body_update facing_left (toc_t1 facing_left facing_right))
        (body_update facing_right (toc_t1 facing_left facing_right)) = 0.
Proof.
  assert (Hv : speed facing_left <> speed facing_right).
  { intros H. apply (f_equal px) in H. cbn in H. lra. }
  assert (Hd : 0 <= toc_delta facing_left facing_right)
    by (rewrite facing_delta; lra).
  exact (proj1 (first_root_is_first_contact facing_left facing_right Hv Hd)).
Defined.

(** X2: with a nonzero relative velocity the solver returns 0 only for
    bodies that touch or overlap, and it does return 0 for bodies that
    overlap and do not move apart. *)
Theorem zero_time_means_overlap (A B : Body) :
  speed A <> speed B ->
  (time_of_collision A B = Fin 0 -> overlapping A B)
  /\ (toc_c A B < 0 -> toc_b A B <= 0 -> time_of_collision A B = Fin 0).
Proof.
  intros Hv.
  assert (Ha : toc_a A B <> 0) by (intros H; apply Hv, toc_a_zero_iff, H).
  split.
  - intros H. unfold overlapping.
    destruct (Rlt_dec (toc_delta A B) 0) as [Hd | Hd].
    + unfold time_of_collision in H. rewrite Rltb_true in H by exact Hd.
      injection H as H. lra.
    + apply Rnot_lt_le in Hd.
      destruct (toc_roots_facts A B Ha Hd) as (Hpos & Hle & Hc & _).
      rewrite time_of_collision_roots in H by assumption.
      destruct (Rltb (toc_t1 A B) 0 && Rltb 0 (toc_t2 A B) && Rleb (toc_b A B) 0) eqn:E.
      * apply andb_true_iff in E. destruct E as (E & _).
        apply andb_true_iff in E. destruct E as (E1 & E2).
        unfold Rltb in E1, E2.
        destruct (Rlt_dec (toc_t1 A B) 0) as [H1 |]; [| discriminate].
        destruct (Rlt_dec 0 (toc_t2 A B)) as [H2 |]; [| discriminate].
        rewrite Hc.
        assert (0 < toc_a A B * ((- toc_t1 A B) * toc_t2 A B))
          by (apply Rmult_lt_0_compat; [exact Hpos | apply Rmult_lt_0_compat; lra]).
        lra.
      * injection H as H. rewrite Hc, H. lra.
  - intros Hc Hb.
    assert (Hpos : 0 < toc_a A B) by (pose proof (toc_a_nonneg A B); lra).
    assert (Hac : 0 < toc_a A B * (- toc_c A B))
      by (apply Rmult_lt_0_compat; lra).
    assert (Hbb : 0 <= toc_b A B * toc_b A B) by apply Rle_0_sqr.
    assert (Hd : toc_b A B * toc_b A B < toc_delta A B)
      by (unfold toc_delta; lra).
    assert (Hd0 : 0 <= toc_delta A B) by lra.
    pose proof (sqrt_pos (toc_delta A B)) as Hs.
    pose proof (sqrt_sqrt _ Hd0) as Hsq.
    set (d := sqrt (toc_delta A B)) in *.
    assert (Hbd : - toc_b A B < d).
    { apply Rnot_le_lt. intros Hle.
      assert (d * d <= (- toc_b A B) * (- toc_b A B))
        by (apply Rmult_le_compat; lra).
      lra. }
    assert (Hi : 0 < / (2 * toc_a A B)) by (apply Rinv_0_lt_compat; lra).
    rewrite time_of_collision_roots by assumption.
    rewrite (Rltb_true (toc_t1 A B) 0), (Rltb_true 0 (toc_t2 A B)), Rleb_true;
      [reflexivity | exact Hb | |].
    + unfold toc_t2. fold d. apply Rmult_lt_0_compat; [lra | exact Hi].
    + unfold toc_t1. fold d.
      replace ((- toc_b A B - d) / (2 * toc_a A B))
        with (- ((d + toc_b A B) * / (2 * toc_a A B))) by (unfold Rdiv; ring).
      assert (0 < (d + toc_b A B) * / (2 * toc_a A B))
        by (apply Rmult_lt_0_compat; [lra | exact Hi]).
      lra.
Qed.

Lemma zero_time_means_overlap_witness :
  time_of_collision (ball 0 2 3 false) (ball 1 0 1 true) = Fin 0.
Proof.
  assert (Hv : speed (ball 0 2 3 false) <> speed (ball 1 0 1 true)).
  { intros H. apply (f_equal px) in H. cbn in H. lra. }
  apply (proj2 (zero_time_means_overlap _ _ Hv));
    unfold toc_c, toc_b, toc_distance; cbn; lra.
Defined.

(** Bodies that are apart and do not approach get a time that fails the
    test [0 <= toc]. *)
Lemma apart_not_approaching A B :
  0 < toc_c A B -> 0 <= toc_b A B -> np_geb0 (time_of_collision A B) = false.
Proof.
  intros Hc Hb.
  destruct (Req_dec_T (toc_a A B) 0) as [Ha | Ha].
  { apply toc_a_zero_iff in Ha. now rewrite (equal_speed_is_nan A B Ha). }
  destruct (Rlt_dec (toc_delta A B) 0) as [Hd | Hd].
  { unfold time_of_collision. rewrite Rltb_true by exact Hd.
    apply Rleb_false. lra. }
  apply Rnot_lt_le in Hd.
  destruct (toc_roots_facts A B Ha Hd) as (Hpos & Hle & Hcc & _).
  pose proof (sqrt_pos (toc_delta A B)) as Hs.
  pose proof (sqrt_sqrt _ Hd) as Hsq.
  assert (Hi : 0 < / (2 * toc_a A B)) by (apply Rinv_0_lt_compat; lra).
  assert (Hnum : 0 < toc_b A B + sqrt (toc_delta A B)).
  { destruct (Rle_lt_or_eq_dec _ _ Hs) as [H | H]; [lra |].
    destruct (Rle_lt_or_eq_dec _ _ Hb) as [H' | H']; [lra |].
    exfalso. rewrite <- H in Hsq. unfold toc_delta in Hsq. rewrite <- H' in Hsq.
    assert (0 < toc_a A B * toc_c A B) by (apply Rmult_lt_0_compat; lra).
    lra. }
  assert (H1 : toc_t1 A B < 0).
  { unfold toc_t1.
    replace ((- toc_b A B - sqrt (toc_delta A B)) / (2 * toc_a A B))
      with (- ((toc_b A B + sqrt (toc_delta A B)) * / (2 * toc_a A B)))
      by (unfold Rdiv; ring).
    assert (0 < (toc_b A B + sqrt (toc_delta A B)) * / (2 * toc_a A B))
      by (apply Rmult_lt_0_compat; assumption).
    lra. }
  assert (H2 : ~ 0 < toc_t2 A B).
  { intros H2.
    assert (0 < toc_a A B * ((- toc_t1 A B) * toc_t2 A B))
      by (apply Rmult_lt_0_compat; [exact Hpos | apply Rmult_lt_0_compat; lra]).
    lra. }
  rewrite time_of_collision_roots by assumption.
  rewrite (Rltb_false 0 (toc_t2 A B)) by exact H2.
  rewrite andb_false_r. cbn [andb np_geb0]. apply Rleb_false. lra.
Qed.

(** X3: a pair of bodies that are apart and do not approach each other is
    never queued, whatever the tick: the push leaves the world as it is. *)
Theorem separating_pair_not_queued (bp : BodyPair) (delta_time start_time : R)
    (w : World) :
  0 < toc_c (heap w (body_a bp)) (heap w (body_b bp)) ->
  0 <= toc_b (heap w (body_a bp)) (heap w (body_b bp)) ->
  push_to_collision_candidates bp delta_time start_time w = w.
Proof.
  intros Hc Hb. unfold push_to_collision_candidates.
  now rewrite (apart_not_approaching _ _ Hc Hb).
Qed.

Lemma parting_delta :
  toc_delta (heap parting_world 0%nat) (heap parting_world 1%nat) = 8 * 8.
Proof. unfold toc_delta, toc_b, toc_a, toc_c, toc_distance. cbn. lra. Qed.

(** The two balls of [parting_world] have a relative velocity and a
    discriminant 64: the solver takes its root t1 = -3. *)
Lemma parting_time :
  time_of_collision (heap parting_world 0%nat) (heap parting_world 1%nat) = Fin (-3).
Proof.
  assert (Ha : toc_a (heap parting_world 0%nat) (heap parting_world 1%nat) = 4)
    by (unfold toc_a; cbn; lra).
  assert (Hb : toc_b (heap parting_world 0%nat) (heap parting_world 1%nat) = 16)
    by (unfold toc_b; cbn; lra).
  assert (Hr : sqrt (toc_delta (heap parting_world 0%nat) (heap parting_world 1%nat)) = 8)
    by (rewrite parting_delta; apply sqrt_square; lra).
  assert (H1 : toc_t1 (heap parting_world 0%nat) (heap parting_world 1%nat) = -3)
    by (unfold toc_t1; rewrite Hr, Ha, Hb; lra).
  rewrite time_of_collision_roots.
  - rewrite H1. rewrite (Rltb_false 0 (toc_t2 _ _)).
    + now rewrite andb_false_r.
    + unfold toc_t2. rewrite Hr, Ha, Hb. lra.
  - rewrite Ha. lra.
  - rewrite parting_delta. lra.
Qed.

Lemma separating_pair_not_queued_witness :
  speed (heap parting_world 0%nat) <> speed (heap parting_world 1%nat)
  /\ time_of_collision (heap parting_world 0%nat) (heap parting_world 1%nat) = Fin (-3)
  /\ push_to_collision_candidates (mkPair 0%nat 1%nat) 2 0 parting_world
     = parting_world.
Proof.
  split; [| split].
  - intros H. apply (f_equal px) in H. cbn in H. lra.
  - exact parting_time.
  - apply separating_pair_not_queued;
      unfold toc_c, toc_b, toc_distance; cbn; lra.
Defined.

(** ** More on the queue *)

Lemma heappush_In c q x : In x (heappush c q) <-> x = c \/ In x q.
Proof.
  induction q as [| c' q IH]; simpl.
  - split; [intros [H | []]; now left | intros [H | []]; now left].
  - destruct (Rltb (fst c) (fst c')) eqn:E; simpl.
    + split; [intros [H | H]; [now left | now right] |
              intros [H | H]; [now left | now right]].
    + rewrite IH. split.
      * intros [H | [H | H]]; [now right; left | now left | now right; right].
      * intros [H | [H | H]]; [now right; left | now left | now right; right].
Qed.

(** What a push keeps: the range and the bodies of the candidates of the
    queue, when the pushed pair has two bodies and a recorded first body. *)
Lemma push_keeps_queue bp delta_time w :
  body_a bp <> body_b bp ->
  dict_mem Nat.eqb (body_a bp) (_moving_bodies w) = true ->
  well_queued delta_time w ->
  let w' := push_to_collision_candidates bp delta_time 0 w in
  well_queued delta_time w'.
Proof.
  intros Hab Hm Hq. unfold push_to_collision_candidates.
  destruct (np_geb0 _ && np_leb _ _) eqn:E; [| exact Hq].
  destruct (time_of_collision _ _) as [t | | |]; try exact Hq.
  apply andb_true_iff in E. destruct E as (E1 & E2). cbn in E1, E2.
  unfold Rleb in E1, E2.
  destruct (Rle_dec 0 t) as [H0 |]; [| discriminate].
  destruct (Rle_dec t (0 + delta_time)) as [H1 |]; [| discriminate].
  intros t' p' Hin. cbn [_collision_candidates set_candidates _moving_bodies] in *.
  apply heappush_In in Hin. destruct Hin as [[= -> ->] | Hin].
  - split; [lra | now split].
  - now apply Hq.
Qed.

Section QueueInvariant.
Context {G : Geometry}.

Lemma moving_candidates_queue body sweept_body delta_time found :
  forall pairs w w',
    dict_mem Nat.eqb body (_moving_bodies w) = true ->
    well_queued delta_time w ->
    moving_candidates body sweept_body delta_time 0 found pairs w = Some w' ->
    well_queued delta_time w'.
Proof.
  induction found as [| s rest IH]; intros pairs w w' Hm Hq; simpl.
  - now intros [= <-].
  - destruct (negb (sweept_eqb sweept_body s)); [| now apply IH].
    destruct (dict_get sweept_eqb s (_sweept_bodies w)) as [other |]; [| discriminate].
    destruct (negb (Nat.eqb body other)) eqn:En; [| now apply IH].
    destruct (existsb _ pairs); [now apply IH |].
    apply negb_true_iff, Nat.eqb_neq in En.
    apply IH.
    + now rewrite (proj1 (push_fields (mkPair body other) delta_time 0 w)).
    + now apply push_keeps_queue.
Qed.

Lemma static_candidates_queue body delta_time found :
  forall pairs w,
    dict_mem Nat.eqb body (_moving_bodies w) = true ->
    well_queued delta_time w ->
    let w' := static_candidates body delta_time 0 found pairs w in
    well_queued delta_time w'.
Proof.
  induction found as [| s rest IH]; intros pairs w Hm Hq; simpl.
  - exact Hq.
  - destruct (negb (dict_mem Nat.eqb s (_moving_bodies w))) eqn:En; [| now apply IH].
    destruct (existsb _ pairs); [now apply IH |].
    apply negb_true_iff in En.
    apply IH.
    + now rewrite (proj1 (push_fields (mkPair body s) delta_time 0 w)).
    + apply push_keeps_queue; [| exact Hm | exact Hq].
      cbn. intros ->. congruence.
Qed.

Lemma update_collision_candidates_queue body delta_time w w' :
  well_queued delta_time w ->
  update_collision_candidates body delta_time 0 w = Some w' ->
  well_queued delta_time w'.
Proof.
  intros Hq. unfold update_collision_candidates.
  destruct (dict_mem Nat.eqb body (_moving_bodies w)) eqn:Em; cbn [negb];
    [| now intros [= <-]].
  unfold bind, query_collisions_with_moving_bodies.
  destruct (dict_get Nat.eqb body (_moving_bodies w)) as [r |]; [| discriminate].
  destruct (moving_candidates _ _ _ _ _ _ w) as [w1 |] eqn:E1; [| discriminate].
  pose proof (moving_candidates_queue _ _ _ _ _ _ _ Em Hq E1) as Hq1.
  assert (E1' := E1). rewrite <- (set_candidates_same w) in E1' at 2.
  apply moving_candidates_frame in E1'. destruct E1' as (q1 & Hw1).
  assert (Em1 : dict_mem Nat.eqb body (_moving_bodies w1) = true) by now rewrite Hw1.
  unfold query_collisions_with_static_bodies.
  destruct (dict_get Nat.eqb body (_moving_bodies w1)); [| discriminate].
  intros [= <-]. now apply static_candidates_queue.
Qed.

Lemma broad_phase_queue delta_time bodies :
  forall w w',
    well_queued delta_time w ->
    broad_phase bodies delta_time w = Some w' ->
    well_queued delta_time w'.
Proof.
  induction bodies as [| body rest IH]; intros w w' Hq; simpl.
  - now intros [= <-].
  - unfold bind.
    destruct (update_collision_candidates body delta_time 0 w) as [w1 |] eqn:E1;
      [| discriminate].
    apply IH. eapply update_collision_candidates_queue; eassumption.
Qed.

(** The queue that the broad phase of a tick builds. *)
Lemma broad_phase_of_tick delta_time w :
  let w1 := predict_all delta_time (reset w) in
  exists w2,
    broad_phase (dict_keys (_moving_bodies w1)) delta_time w1 = Some w2
    /\ well_queued delta_time w2.
Proof.
  intros w1.
  assert (Hi : proxies_indexed w1).
  { apply (inv_predict_list proxies_indexed).
    - intros body dt v. apply proxies_indexed_predict.
    - intros s []. }
  destruct (broad_phase_total delta_time (dict_keys (_moving_bodies w1)) w1 Hi)
    as (w2 & E).
  exists w2. split; [exact E |].
  apply (broad_phase_queue _ _ _ _) with (2 := E).
  assert (Hq : _collision_candidates w1 = []) by apply predict_list_queue.
  unfold well_queued. rewrite Hq. intros t p [].
Qed.

(** X4: the broad phase of a tick runs to its end and queues only
    candidates whose time is between 0 and the tick duration, whose two
    bodies differ and whose first body holds a moving record. *)
Theorem queued_candidates_in_range (delta_time : R) (w : World) :
  let w1 := predict_all delta_time (reset w) in
  exists w2,
    broad_phase (dict_keys (_moving_bodies w1)) delta_time w1 = Some w2
    /\ forall t p, In (t, p) (_collision_candidates w2) ->
         0 <= t <= delta_time
         /\ body_a p <> body_b p
         /\ dict_mem Nat.eqb (body_a p) (_moving_bodies w2) = true.
Proof.
  destruct (broad_phase_of_tick delta_time w) as (w2 & E & Hq).
  exists w2. split; [exact E | exact Hq].
Qed.

End QueueInvariant.

(** ** More on records and proxies *)

Lemma dict_del_set_absent {K V : Type} (eqb : K -> K -> bool) (k : K) (v : V) d :
  eqb k k = true -> dict_mem eqb k d = false ->
  dict_del eqb k (dict_set eqb k v d) = d.
Proof.
  intros Hr. unfold dict_mem. induction d as [| [k0 v0] d IH]; simpl.
  - intros _. now rewrite Hr.
  - destruct (eqb k k0) eqn:E; [discriminate |]. intros H. simpl.
    rewrite E. now rewrite IH.
Qed.

Lemma dict_mem_absent {K V : Type} (eqb : K -> K -> bool) (k : K) (d : list (K * V)) :
  (forall k0 v0, In (k0, v0) d -> eqb k k0 = false) -> dict_mem eqb k d = false.
Proof.
  unfold dict_mem. induction d as [| [k0 v0] d IH]; simpl; intros H; [reflexivity |].
  rewrite (H k0 v0 (or_introl eq_refl)). apply IH. intros k1 v1 H1. apply (H k1 v1).
  now right.
Qed.

Lemma filter_keeps_all {A : Type} (f : A -> bool) (l : list A) :
  (forall x, In x l -> f x = true) -> filter f l = l.
Proof.
  induction l as [| x l IH]; simpl; intros H; [reflexivity |].
  rewrite (H x (or_introl eq_refl)). f_equal. apply IH. intros y Hy. apply H. now right.
Qed.

Lemma sweept_eqb_fresh n rect s :
  (sweept_id s < n)%nat -> sweept_eqb (mkSwept n rect) s = false.
Proof. intros H. unfold sweept_eqb. cbn. apply Nat.eqb_neq. lia. Qed.

(** X6: for a body that holds no record, in a world whose proxies are older
    than the next identity, removing the body right after a prediction
    restores the records, the side table and the Movement Index, and raises
    no KeyError, whether or not the prediction registered a record. *)
Theorem predict_then_remove (body : BodyId) (delta_time : R) (w : World) :
  fresh_proxies w ->
  dict_mem Nat.eqb body (_moving_bodies w) = false ->
  exists w',
    remove_moving_body body (predict_movement body delta_time w) = Some w'
    /\ _moving_bodies w' = _moving_bodies w
    /\ _sweept_bodies w' = _sweept_bodies w
    /\ _movement_spatial_struct w' = _movement_spatial_struct w
    /\ _collision_candidates w' = _collision_candidates w
    /\ heap w' = heap w.
Proof.
  intros (Hf1 & Hf2) Hm.
  assert (Hnone : remove_moving_body body w = Some w).
  { unfold remove_moving_body. unfold dict_mem in Hm.
    now destruct (dict_get Nat.eqb body (_moving_bodies w)). }
  unfold predict_movement.
  destruct (is_static (heap w body)); [exists w; now rewrite Hnone |].
  destruct (point_eqb _ _); [exists w; now rewrite Hnone |].
  set (sw := calculate_sweept_body _ _ _).
  assert (Hsw : forall s, (sweept_id s < next_sweept w)%nat -> sweept_eqb sw s = false).
  { intros s Hs. now apply sweept_eqb_fresh. }
  assert (Habs : dict_mem sweept_eqb sw (_sweept_bodies w) = false).
  { apply dict_mem_absent. intros s b Hin. apply Hsw. exact (Hf1 s b Hin). }
  unfold remove_moving_body. cbn [_moving_bodies _sweept_bodies _movement_spatial_struct].
  rewrite moving_get_set, Nat.eqb_refl. cbn [rec_sweept].
  unfold dict_mem at 1. rewrite sweept_get_set, sweept_eqb_refl.
  eexists. split; [reflexivity |].
  cbn [set_moving _moving_bodies _sweept_bodies _movement_spatial_struct
       _collision_candidates heap].
  rewrite (dict_del_set_absent Nat.eqb) by (try apply Nat.eqb_refl; exact Hm).
  rewrite (dict_del_set_absent sweept_eqb) by (try apply sweept_eqb_refl; exact Habs).
  rewrite filter_app. cbn [filter]. rewrite sweept_eqb_refl. cbn [negb].
  rewrite app_nil_r, filter_keeps_all.
  - repeat split.
  - intros s Hs. now rewrite (Hsw s (Hf2 s Hs)).
Qed.

Lemma predict_then_remove_witness :
  exists w',
    remove_moving_body 0%nat (predict_movement 0%nat 2 wall_world) = Some w'
    /\ _moving_bodies w' = [] /\ _movement_spatial_struct w' = [].
Proof.
  assert (Hf : fresh_proxies wall_world) by (split; [intros s b [] | intros s []]).
  assert (Hm : dict_mem Nat.eqb 0%nat (_moving_bodies wall_world) = false)
    by reflexivity.
  destruct (predict_then_remove 0%nat 2 wall_world Hf Hm)
    as (w' & E & H1 & _ & H3 & _).
  exists w'. split; [exact E |]. split; [exact H1 | exact H3].
Defined.

(** X7: in a world with one record per body, a body that has been removed
    holds no record, and removing it again changes nothing. *)
Theorem remove_moving_body_twice (body : BodyId) (w w1 : World) :
  one_record_per_body w ->
  remove_moving_body body w = Some w1 ->
  dict_mem Nat.eqb body (_moving_bodies w1) = false
  /\ remove_moving_body body w1 = Some w1.
Proof.
  intros Hnd E.
  assert (Hm : dict_mem Nat.eqb body (_moving_bodies w1) = false).
  { rewrite (remove_moving_body_mem _ _ _ _ Hnd E), Nat.eqb_refl. reflexivity. }
  split; [exact Hm |].
  unfold remove_moving_body. unfold dict_mem in Hm.
  now destruct (dict_get Nat.eqb body (_moving_bodies w1)).
Qed.

Lemma remove_moving_body_twice_witness :
  exists w1,
    remove_moving_body 0%nat wall_queued = Some w1
    /\ dict_mem Nat.eqb 0%nat (_moving_bodies w1) = false
    /\ remove_moving_body 0%nat w1 = Some w1.
Proof.
  assert (Hnd : one_record_per_body wall_queued).
  { repeat constructor. intros []. }
  assert (E : exists w1, remove_moving_body 0%nat wall_queued = Some w1).
  { unfold remove_moving_body. cbn. eexists. reflexivity. }
  destruct E as (w1 & E). exists w1. split; [exact E |].
  exact (remove_moving_body_twice 0%nat wall_queued w1 Hnd E).
Defined.

(** ** What a tick never changes *)

Lemma same_makeup_refl w : same_makeup w w.
Proof. repeat split. Qed.

Lemma same_makeup_trans w1 w2 w3 :
  same_makeup w1 w2 -> same_makeup w2 w3 -> same_makeup w1 w3.
Proof.
  intros (S1 & V1 & H1) (S2 & V2 & H2).
  split; [congruence |]. split; [congruence |].
  intros body. destruct (H1 body) as (A1 & B1 & C1 & D1).
  destruct (H2 body) as (A2 & B2 & C2 & D2).
  repeat split; congruence.
Qed.

Lemma same_makeup_heap w w' :
  spatial_struct w' = spatial_struct w -> visible_area w' = visible_area w ->
  heap w' = heap w -> same_makeup w w'.
Proof. intros S V H. split; [exact S |]. split; [exact V |]. rewrite H. repeat split. Qed.

Lemma on_body_makeup body f w :
  (forall x, mass (f x) = mass x
             /\ radius (bounding_box (f x)) = radius (bounding_box x)
             /\ is_static (f x) = is_static x
             /\ is_tangible (f x) = is_tangible x) ->
  same_makeup w (on_body body f w).
Proof.
  intros Hf. split; [reflexivity |]. split; [reflexivity |].
  intros i. cbn. destruct (Nat.eqb i body) eqn:E; [| repeat split].
  apply Nat.eqb_eq in E. subst i. apply Hf.
Qed.

Lemma predict_movement_makeup body delta_time w :
  same_makeup w (predict_movement body delta_time w).
Proof.
  unfold predict_movement. destruct (is_static _); [apply same_makeup_refl |].
  destruct (point_eqb _ _); [apply same_makeup_refl |]. now apply same_makeup_heap.
Qed.

Lemma remove_moving_body_makeup body w w' :
  remove_moving_body body w = Some w' -> same_makeup w w'.
Proof.
  unfold remove_moving_body.
  destruct (dict_get _ _ _); [| intros [= <-]; apply same_makeup_refl].
  destruct (dict_mem _ _ _); [| discriminate].
  intros [= <-]. now apply same_makeup_heap.
Qed.

Lemma update_body_forces_makeup a b w w' :
  update_body_forces a b w = Some w' -> same_makeup w w' /\ same_records w w'.
Proof.
  unfold update_body_forces, bind.
  destruct (exchange_v1 _ _) as [v1 |]; [| discriminate].
  destruct (exchange_v2 _ _) as [v2 |]; [| discriminate].
  intros [= <-].
  set (w1 := if negb (is_static (heap w a))
             then on_body a (fun x => set_speed x v1) w else w).
  assert (H1 : same_makeup w w1 /\ same_records w w1).
  { subst w1. destruct (negb _); split; try (now repeat split).
    now apply on_body_makeup. }
  destruct H1 as (M1 & R1).
  destruct (negb (is_static (heap w1 b))); [| now split].
  split.
  - apply (same_makeup_trans _ _ _ M1). now apply on_body_makeup.
  - exact R1.
Qed.

Lemma update_body_forces_other a b w w' :
  update_body_forces a b w = Some w' ->
  forall i, i <> a -> i <> b -> heap w' i = heap w i.
Proof.
  unfold update_body_forces, bind.
  destruct (exchange_v1 _ _) as [v1 |]; [| discriminate].
  destruct (exchange_v2 _ _) as [v2 |]; [| discriminate].
  intros [= <-] i Ha Hb. apply Nat.eqb_neq in Ha, Hb.
  set (w1 := if negb (is_static (heap w a))
             then on_body a (fun x => set_speed x v1) w else w).
  assert (H1 : heap w1 i = heap w i).
  { subst w1. destruct (negb _); [cbn; now rewrite Ha | reflexivity]. }
  destruct (negb (is_static (heap w1 b))); [cbn; now rewrite Hb | exact H1].
Qed.

Lemma handle_contact_makeup a b current_time end_time w w' :
  handle_contact a b current_time end_time w = Some w' -> same_makeup w w'.
Proof.
  unfold handle_contact, bind.
  destruct (remove_moving_body a w) as [w1 |] eqn:E1; [| discriminate].
  destruct (remove_moving_body b w1) as [w2 |] eqn:E2; [| discriminate].
  intros [= <-].
  eapply same_makeup_trans; [exact (remove_moving_body_makeup _ _ _ E1) |].
  eapply same_makeup_trans; [exact (remove_moving_body_makeup _ _ _ E2) |].
  eapply same_makeup_trans; apply predict_movement_makeup.
Qed.

Lemma body_update_makeup dt x :
  mass (body_update x dt) = mass x
  /\ radius (bounding_box (body_update x dt)) = radius (bounding_box x)
  /\ is_static (body_update x dt) = is_static x
  /\ is_tangible (body_update x dt) = is_tangible x.
Proof. repeat split. Qed.

Section Makeup.
Context {G : Geometry}.

(** What a checked candidate leaves alone, and what it calls. *)
Lemma check_collision_effect a b toc current_time end_time w w' :
  check_collision a b toc current_time end_time w = Some w' ->
  same_makeup w w'
  /\ (forall i, i <> a -> i <> b -> heap w' i = heap w i)
  /\ handled w'
     = handled w
       ++ if collides_with (comparing_shape a toc w) (comparing_shape b toc w)
          then [(a, b); (b, a)] else [].
Proof.
  unfold check_collision. destruct (collides_with _ _).
  2:{ intros [= <-]. rewrite app_nil_r. split; [apply same_makeup_refl | now split]. }
  unfold resolve_collision.
  destruct (is_tangible (heap w a) && is_tangible (heap w b)).
  - unfold bind at 1.
    match goal with |- context [update_body_forces a b ?x] => set (w2 := x) end.
    unfold bind at 1.
    destruct (update_body_forces a b w2) as [w3 |] eqn:E3; [| discriminate].
    destruct (handle_contact a b current_time end_time w3) as [w4 |] eqn:E4;
      [| discriminate].
    intros [= <-].
    assert (M2 : same_makeup w w2).
    { subst w2. eapply same_makeup_trans; apply on_body_makeup;
        intros x; apply body_update_makeup. }
    destruct (update_body_forces_makeup _ _ _ _ E3) as (M3 & _).
    pose proof (handle_contact_makeup _ _ _ _ _ _ E4) as M4.
    split; [| split].
    + apply (same_makeup_trans _ _ _ M2). apply (same_makeup_trans _ _ _ M3).
      destruct M4 as (S4 & V4 & H4). now split.
    + intros i Ha Hb. cbn [handle_collision heap].
      rewrite (handle_contact_heap _ _ _ _ _ _ E4).
      rewrite (update_body_forces_other _ _ _ _ E3 i Ha Hb).
      apply Nat.eqb_neq in Ha, Hb. subst w2. cbn. now rewrite Ha, Hb.
    + cbn [handle_collision handled].
      assert (Hh4 : handled w4 = handled w3).
      { revert E4. unfold handle_contact, bind.
        destruct (remove_moving_body a w3) as [u1 |] eqn:E1; [| discriminate].
        destruct (remove_moving_body b u1) as [u2 |] eqn:E2; [| discriminate].
        intros [= <-].
        rewrite (proj2 (predict_movement_queue _ _ _)),
          (proj2 (predict_movement_queue _ _ _)).
        rewrite (proj2 (remove_moving_body_queue _ _ _ E2)).
        exact (proj2 (remove_moving_body_queue _ _ _ E1)). }
      destruct (update_body_forces_tracking _ _ _ _ E3) as (_ & _ & Hh3).
      rewrite Hh4, Hh3. subst w2. cbn. now rewrite <- app_assoc.
  - cbn [bind]. intros [= <-]. split; [| split].
    + now apply same_makeup_heap.
    + reflexivity.
    + cbn. now rewrite <- app_assoc.
Qed.

Lemma drain_makeup queue delta_time :
  forall current_time w w',
    drain queue delta_time current_time w = Some w' -> same_makeup w w'.
Proof.
  induction queue as [| [toc bp] rest IH]; intros ct w w'; simpl.
  - intros [= <-]. apply same_makeup_refl.
  - unfold bind.
    destruct (check_collision _ _ _ _ _ _) as [w1 |] eqn:E1; [| discriminate].
    intros H. apply IH in H.
    destruct (check_collision_effect _ _ _ _ _ _ _ E1) as (M1 & _).
    eapply same_makeup_trans; [| exact H].
    eapply same_makeup_trans; [| exact M1]. now apply same_makeup_heap.
Qed.

Lemma predict_list_makeup delta_time bodies :
  forall w,
    same_makeup w (fold_left (fun w' body => predict_movement body delta_time w')
                             bodies w).
Proof.
  induction bodies as [| body rest IH]; intros w; simpl; [apply same_makeup_refl |].
  eapply same_makeup_trans; [apply predict_movement_makeup | apply IH].
Qed.

Lemma commit_list_makeup delta_time bodies :
  forall w,
    same_makeup w
      (fold_left (fun w' body => on_body body (fun x => body_update x delta_time) w')
                 bodies w).
Proof.
  induction bodies as [| body rest IH]; intros w; simpl; [apply same_makeup_refl |].
  eapply same_makeup_trans; [| apply IH].
  apply on_body_makeup. intros x. apply body_update_makeup.
Qed.

(** X9: a checked candidate changes no body other than its two, and it calls
    the collision response of each of the two with the other, in this order,
    exactly when the narrow-phase test passes, whether or not the bodies are
    tangible. *)
Theorem check_collision_is_local (a b : BodyId) (toc current_time end_time : R)
    (w w' : World) :
  check_collision a b toc current_time end_time w = Some w' ->
  (forall i, i <> a -> i <> b -> heap w' i = heap w i)
  /\ handled w'
     = handled w
       ++ if collides_with (comparing_shape a toc w) (comparing_shape b toc w)
          then [(a, b); (b, a)] else [].
Proof.
  intros E. destruct (check_collision_effect _ _ _ _ _ _ _ E) as (_ & H1 & H2).
  now split.
Qed.
End Makeup.

Lemma check_collision_is_local_witness :
  exists w',
    check_collision (G := plain_geometry) 0%nat 1%nat 0 0 2 ghost_world = Some w'
    /\ heap w' 2%nat = heap ghost_world 2%nat
    /\ handled w' = [(0%nat, 1%nat); (1%nat, 0%nat)].
Proof.
  assert (E : exists w', check_collision (G := plain_geometry) 0%nat 1%nat 0 0 2
                           ghost_world = Some w').
  { unfold check_collision, comparing_shape. run. unfold resolve_collision. run.
    eexists. reflexivity. }
  destruct E as (w' & E). exists w'. split; [exact E |].
  destruct (check_collision_is_local (G := plain_geometry) _ _ _ _ _ _ _ E)
    as (H1 & H2).
  split; [apply H1; discriminate |].
  rewrite H2. unfold comparing_shape. run. reflexivity.
Defined.

(** ** A tick runs to its end *)

Lemma sweept_mem_set (k k' : SweptBody) (v : BodyId) d :
  dict_mem sweept_eqb k (dict_set sweept_eqb k' v d)
  = sweept_eqb k k' || dict_mem sweept_eqb k d.
Proof. apply dict_mem_set; [apply sweept_eqb_sym | apply sweept_eqb_trans]. Qed.

Lemma In_dict_del_key (k : BodyId) (d : list (BodyId * MovingRecord)) b r :
  NoDup (dict_keys d) -> In (b, r) (dict_del Nat.eqb k d) -> b <> k.
Proof.
  induction d as [| [k1 v1] d IH]; simpl; intros Hnd; [easy |].
  inversion Hnd as [| ? ? Hn Hd]; subst.
  destruct (Nat.eqb k k1) eqn:E; simpl.
  - apply Nat.eqb_eq in E. subst k1. intros Hin ->. apply Hn.
    change k with (fst (k, r)). now apply in_map.
  - intros [[= -> ->] | Hin]; [now apply Nat.eqb_neq; rewrite Nat.eqb_sym | now apply IH].
Qed.

Lemma records_sound_same w w' :
  same_records w w' -> records_sound w -> records_sound w'.
Proof.
  intros (M & S & T & N). unfold records_sound, one_record_per_body, proxies_indexed.
  now rewrite M, S, T, N.
Qed.

Lemma records_sound_reset w : records_sound (reset w).
Proof.
  split; [constructor |]. split; [intros s [] |]. split; [intros b r [] |].
  intros b1 r1 b2 r2 [].
Qed.

Lemma records_sound_predict body delta_time w :
  records_sound w -> records_sound (predict_movement body delta_time w).
Proof.
  intros (Hnd & Hidx & Hc & Hd).
  split; [now apply one_record_predict |].
  split; [now apply proxies_indexed_predict |].
  unfold predict_movement.
  destruct (is_static _); [now split |]. destruct (point_eqb _ _); [now split |].
  set (sw := calculate_sweept_body _ _ _).
  assert (Hid : sweept_id sw = next_sweept w) by reflexivity.
  cbn [_moving_bodies _sweept_bodies next_sweept]. split.
  - intros b r Hin. apply In_dict_set in Hin. rewrite sweept_mem_set.
    destruct Hin as [[= -> ->] | Hin]; cbn [rec_sweept].
    + rewrite sweept_eqb_refl. split; [reflexivity | lia].
    + destruct (Hc b r Hin) as (H1 & H2). rewrite H1, orb_true_r. split; [reflexivity | lia].
  - intros b1 r1 b2 r2 H1 H2 He.
    apply In_dict_set in H1, H2.
    destruct H1 as [[= -> ->] | H1], H2 as [[= -> ->] | H2]; cbn [rec_sweept] in He.
    + reflexivity.
    + destruct (Hc b2 r2 H2) as (_ & Hlt). lia.
    + destruct (Hc b1 r1 H1) as (_ & Hlt). lia.
    + exact (Hd _ _ _ _ H1 H2 He).
Qed.

Lemma remove_moving_body_sound body w :
  records_sound w ->
  exists w', remove_moving_body body w = Some w' /\ records_sound w'.
Proof.
  intros Hs. assert (Hs' := Hs). destruct Hs' as (Hnd & Hidx & Hc & Hd).
  unfold remove_moving_body.
  destruct (dict_get Nat.eqb body (_moving_bodies w)) as [r |] eqn:Eg; [| eauto].
  destruct (dict_get_In Nat.eqb body r _ Eg) as (k0 & Hin & Ek).
  apply Nat.eqb_eq in Ek. subst k0.
  destruct (Hc body r Hin) as (Hmem & Hlt). cbn zeta. rewrite Hmem.
  eexists. split; [reflexivity |].
  split; [| split; [| split]];
    unfold one_record_per_body, proxies_indexed;
    cbn [set_moving _moving_bodies _sweept_bodies _movement_spatial_struct
         next_sweept].
  - now apply dict_keys_del_nodup.
  - intros s Hs0. apply filter_In in Hs0. destruct Hs0 as (Hs0 & E).
    apply negb_true_iff in E. unfold dict_mem.
    rewrite (dict_get_del_other sweept_eqb sweept_eqb_sym sweept_eqb_trans)
      by (now rewrite sweept_eqb_sym).
    exact (Hidx s Hs0).
  - intros b r' Hin'.
    pose proof (In_dict_del_key _ _ _ _ Hnd Hin') as Hne.
    apply In_dict_del in Hin'. destruct (Hc b r' Hin') as (H1 & H2).
    split; [| exact H2]. unfold dict_mem.
    rewrite (dict_get_del_other sweept_eqb sweept_eqb_sym sweept_eqb_trans).
    + exact H1.
    + unfold sweept_eqb. apply Nat.eqb_neq. intros He. apply Hne.
      exact (Hd _ _ _ _ Hin' Hin He).
  - intros b1 r1 b2 r2 H1 H2. apply In_dict_del in H1, H2. now apply Hd.
Qed.

Lemma positive_masses_makeup w w' :
  same_makeup w w' -> positive_masses w -> positive_masses w'.
Proof. intros (_ & _ & H) Hp body. rewrite (proj1 (H body)). apply Hp. Qed.

Lemma update_body_forces_total a b w :
  positive_masses w -> exists w', update_body_forces a b w = Some w'.
Proof.
  intros Hp. unfold update_body_forces.
  assert (Hm : mass (heap w a) + mass (heap w b) <> 0)
    by (pose proof (Hp a); pose proof (Hp b); lra).
  rewrite exchange_v1_spec, exchange_v2_spec by exact Hm. cbn [bind]. eauto.
Qed.

Lemma handle_contact_sound a b current_time end_time w :
  records_sound w ->
  exists w', handle_contact a b current_time end_time w = Some w' /\ records_sound w'.
Proof.
  intros Hs. unfold handle_contact.
  destruct (remove_moving_body_sound a w Hs) as (w1 & E1 & Hs1).
  destruct (remove_moving_body_sound b w1 Hs1) as (w2 & E2 & Hs2).
  rewrite E1. cbn [bind]. rewrite E2. cbn [bind].
  eexists. split; [reflexivity |]. now apply records_sound_predict, records_sound_predict.
Qed.

Lemma commit_list_frame delta_time bodies :
  forall w,
    let w' := fold_left (fun v body => on_body body (fun x => body_update x delta_time) v)
                        bodies w in
    same_records w w' /\ _collision_candidates w' = _collision_candidates w.
Proof.
  induction bodies as [| i l IH]; intros w; simpl.
  - repeat split.
  - destruct (IH (on_body i (fun x => body_update x delta_time) w))
      as ((M & S & T & N) & Q).
    repeat split; assumption.
Qed.

Section Completion.
Context {G : Geometry}.

Lemma check_collision_sound a b toc current_time end_time w :
  records_sound w -> positive_masses w ->
  exists w',
    check_collision a b toc current_time end_time w = Some w'
    /\ records_sound w' /\ positive_masses w'.
Proof.
  intros Hs Hp.
  assert (Hgoal : exists w', check_collision a b toc current_time end_time w = Some w'
                             /\ records_sound w').
  { unfold check_collision. destruct (collides_with _ _); [| eauto].
    unfold resolve_collision.
    destruct (is_tangible (heap w a) && is_tangible (heap w b)).
    - match goal with |- context [update_body_forces a b ?x] => set (w2 := x) end.
      assert (Hp2 : positive_masses w2).
      { eapply positive_masses_makeup; [| exact Hp].
        subst w2. eapply same_makeup_trans; apply on_body_makeup;
          intros x; apply body_update_makeup. }
      destruct (update_body_forces_total a b w2 Hp2) as (w3 & E3).
      rewrite E3. cbn [bind].
      assert (Hs3 : records_sound w3).
      { apply (records_sound_same w2);
          [exact (proj2 (update_body_forces_makeup _ _ _ _ E3)) |].
        subst w2. exact Hs. }
      destruct (handle_contact_sound a b current_time end_time w3 Hs3)
        as (w4 & E4 & Hs4).
      rewrite E4. cbn [bind]. eexists. split; [reflexivity | exact Hs4].
    - cbn [bind]. eexists. split; [reflexivity | exact Hs]. }
  destruct Hgoal as (w' & E & Hs'). exists w'. split; [exact E |].
  split; [exact Hs' |].
  eapply positive_masses_makeup; [| exact Hp].
  exact (proj1 (check_collision_effect _ _ _ _ _ _ _ E)).
Qed.

Lemma drain_sound queue delta_time :
  forall current_time w,
    records_sound w -> positive_masses w ->
    exists w', drain queue delta_time current_time w = Some w' /\ records_sound w'.
Proof.
  induction queue as [| [toc bp] rest IH]; intros ct w Hs Hp; simpl; [eauto |].
  destruct (check_collision_sound (body_a bp) (body_b bp) toc ct delta_time
              (set_candidates w rest) Hs Hp) as (w1 & E1 & Hs1 & Hp1).
  rewrite E1. cbn [bind]. now apply IH.
Qed.

(** X10: when every body has a positive mass a tick runs to its end: no
    lookup or deletion in the records and the side table misses its key and
    no velocity exchange divides by zero; it leaves an empty queue, one
    record per body, every proxy of the Movement Index and of a record in
    the side table, and no proxy shared by two records. *)
Theorem update_runs_to_its_end (delta_time : R) (w : World) :
  positive_masses w ->
  exists w',
    update delta_time w = Some w'
    /\ _collision_candidates w' = []
    /\ records_sound w'.
Proof.
  intros Hp. unfold update, simulate.
  set (w1 := predict_all delta_time (reset w)).
  assert (Hs1 : records_sound w1).
  { apply (inv_predict_list records_sound).
    - intros body dt v. apply records_sound_predict.
    - apply records_sound_reset. }
  assert (Hp1 : positive_masses w1).
  { eapply positive_masses_makeup; [| exact Hp].
    eapply same_makeup_trans; [| apply predict_list_makeup]. now apply same_makeup_heap. }
  destruct (broad_phase_total delta_time (dict_keys (_moving_bodies w1)) w1
              (proj1 (proj2 Hs1))) as (w2 & E2).
  rewrite E2. cbn [bind].
  destruct (broad_phase_frame _ _ _ _ E2) as (q & Hw2).
  assert (Hs2 : records_sound w2) by (rewrite Hw2; exact Hs1).
  assert (Hp2 : positive_masses w2) by (rewrite Hw2; exact Hp1).
  unfold detect_collisions.
  destruct (drain_sound (_collision_candidates w2) delta_time 0 w2 Hs2 Hp2)
    as (w3 & E3 & Hs3).
  rewrite E3. cbn [bind]. eexists. split; [reflexivity |].
  assert (Hq3 : _collision_candidates w3 = []) by (eapply drain_queue; [reflexivity | exact E3]).
  pose proof (commit_list_frame delta_time (dict_keys (_moving_bodies w3)) w3) as Hc.
  fold (commit delta_time w3) in Hc.
  destruct Hc as (Hr & Hq). split; [now rewrite Hq |].
  exact (records_sound_same _ _ Hr Hs3).
Qed.
End Completion.

Lemma update_runs_to_its_end_witness :
  exists w', update (G := plain_geometry) 2 chase_world = Some w'
             /\ _collision_candidates w' = [].
Proof.
  assert (Hp : positive_masses chase_world).
  { intros [| n]; cbn; lra. }
  destruct (update_runs_to_its_end (G := plain_geometry) 2 chase_world Hp)
    as (w' & E & Hq & _).
  exists w'. split; [exact E | exact Hq].
Defined.

(** ** Ticks without contact *)

Lemma predict_position_rest b dt :
  dt = 0 \/ speed b = mkPoint 0 0 -> predict_position b dt = position b.
Proof.
  intros H. unfold predict_position, padd, scalar_mult.
  destruct (position b) as [x y].
  destruct H as [-> | ->]; cbn; f_equal; ring.
Qed.

Lemma predict_movement_rest body dt w :
  is_static (heap w body) = true \/ dt = 0 \/ speed (heap w body) = mkPoint 0 0 ->
  predict_movement body dt w = w.
Proof.
  intros H. unfold predict_movement.
  destruct (is_static (heap w body)); [reflexivity |].
  destruct H as [H | H]; [discriminate |].
  rewrite (predict_position_rest _ _ H).
  now rewrite (proj2 (point_eqb_true _ _) eq_refl).
Qed.

Lemma predict_list_rest delta_time bodies w :
  (forall body, In body bodies ->
     is_static (heap w body) = true \/ delta_time = 0
     \/ speed (heap w body) = mkPoint 0 0) ->
  fold_left (fun w' body => predict_movement body delta_time w') bodies w = w.
Proof.
  induction bodies as [| body rest IH]; intros H; simpl; [reflexivity |].
  rewrite predict_movement_rest by (apply H; now left).
  apply IH. intros b Hb. apply H. now right.
Qed.

(** X11: a tick of duration 0, or a tick on a world whose indexed bodies are
    all static or at rest, only discards the transient state: it moves no
    body, queues no candidate, calls no collision response and raises
    nothing. *)
Theorem idle_tick {G : Geometry} (delta_time : R) (w : World) :
  delta_time = 0
  \/ (forall body, In body (spatial_struct w) ->
        is_static (heap w body) = true \/ speed (heap w body) = mkPoint 0 0) ->
  update delta_time w = Some (reset w).
Proof.
  intros H. unfold update, simulate, predict_all.
  rewrite predict_list_rest.
  - reflexivity.
  - intros body Hb. cbn [heap reset spatial_struct] in *.
    destruct H as [H | H]; [now right; left |].
    destruct (H body Hb); [now left | now right; right].
Qed.

Lemma idle_tick_witness :
  update (G := plain_geometry) 0 wall_world = Some (reset wall_world)
  /\ update (G := plain_geometry) 2 still_world = Some (reset still_world).
Proof.
  split.
  - apply idle_tick. now left.
  - apply idle_tick. right. intros [| n] _; now left.
Defined.

Lemma predict_list_mem delta_time bodies :
  forall w i,
    dict_mem Nat.eqb i
      (_moving_bodies
         (fold_left (fun w' body => predict_movement body delta_time w') bodies w))
    = (existsb (Nat.eqb i) bodies
       && negb (is_static (heap w i))
       && negb (point_eqb (predict_position (heap w i) delta_time)
                          (position (heap w i))))
      || dict_mem Nat.eqb i (_moving_bodies w).
Proof.
  induction bodies as [| body rest IH]; intros w i; simpl; [reflexivity |].
  rewrite IH, predict_movement_heap, predict_movement_mem.
  destruct (Nat.eqb i body) eqn:E; simpl.
  - apply Nat.eqb_eq in E. subst body.
    destruct (existsb (Nat.eqb i) rest), (is_static (heap w i)),
      (point_eqb _ _), (dict_mem Nat.eqb i (_moving_bodies w)); reflexivity.
  - reflexivity.
Qed.

Lemma body_update_position b dt : position (body_update b dt) = predict_position b dt.
Proof. reflexivity. Qed.

Lemma predict_list_heap delta_time bodies :
  forall w,
    heap (fold_left (fun w' body => predict_movement body delta_time w') bodies w)
    = heap w.
Proof.
  induction bodies as [| body rest IH]; intros w; simpl; [reflexivity |].
  rewrite IH. apply predict_movement_heap.
Qed.

(** X12: when the broad phase of a tick queues no candidate, the tick runs
    to its end and every indexed non-static body ends at the position
    predicted for the tick duration, with its velocity; a static body and a
    body that is not indexed stay where they are. *)
Theorem free_flight {G : Geometry} (delta_time : R) (w w2 : World) :
  let w1 := predict_all delta_time (reset w) in
  broad_phase (dict_keys (_moving_bodies w1)) delta_time w1 = Some w2 ->
  _collision_candidates w2 = [] ->
  exists w',
    update delta_time w = Some w'
    /\ forall body,
         speed (heap w' body) = speed (heap w body)
         /\ position (heap w' body)
            = if existsb (Nat.eqb body) (spatial_struct w)
                 && negb (is_static (heap w body))
              then predict_position (heap w body) delta_time
              else position (heap w body).
Proof.
  intros w1 E2 Hq. unfold update, simulate. fold w1. rewrite E2. cbn [bind].
  unfold detect_collisions. rewrite Hq. cbn [drain bind].
  eexists. split; [reflexivity |]. intros body.
  destruct (broad_phase_frame _ _ _ _ E2) as (q & Hw2).
  assert (Hnd : one_record_per_body w2).
  { rewrite Hw2. apply (inv_predict_list one_record_per_body).
    - intros b dt v. apply one_record_predict.
    - apply one_record_reset. }
  assert (Hh : heap w2 = heap w).
  { rewrite Hw2. cbn [heap set_candidates]. subst w1. unfold predict_all.
    now rewrite predict_list_heap. }
  assert (Hm : dict_mem Nat.eqb body (_moving_bodies w2)
               = existsb (Nat.eqb body) (spatial_struct w)
                 && negb (is_static (heap w body))
                 && negb (point_eqb (predict_position (heap w body) delta_time)
                                    (position (heap w body)))).
  { rewrite Hw2. cbn [_moving_bodies set_candidates]. subst w1. unfold predict_all.
    rewrite predict_list_mem. cbn [heap reset spatial_struct _moving_bodies].
    apply orb_false_r. }
  rewrite (commit_heap _ _ _ Hnd), Hm, Hh.
  destruct (existsb (Nat.eqb body) (spatial_struct w) && negb (is_static (heap w body)));
    cbn [andb].
  - destruct (point_eqb _ _) eqn:Ep; cbn [negb].
    + apply point_eqb_true in Ep. now rewrite Ep.
    + split; reflexivity.
  - split; reflexivity.
Qed.

Lemma free_flight_witness :
  exists w',
    update (G := plain_geometry) (1 / 2) wall_world = Some w'
    /\ position (heap w' 0%nat) = predict_position (ball 0 2 3 false) (1 / 2)
    /\ position (heap w' 1%nat) = mkPoint 4 0.
Proof.
  assert (E : exists w2,
             broad_phase (G := plain_geometry)
               (dict_keys (_moving_bodies (predict_all (1 / 2) (reset wall_world))))
               (1 / 2) (predict_all (1 / 2) (reset wall_world)) = Some w2
             /\ _collision_candidates w2 = []).
  { unfold predict_all, reset. run. eexists. split; reflexivity. }
  destruct E as (w2 & E2 & Hq).
  destruct (free_flight (G := plain_geometry) (1 / 2) wall_world w2 E2 Hq)
    as (w' & Eu & H).
  exists w'. split; [exact Eu |]. split.
  - exact (proj2 (H 0%nat)).
  - exact (proj2 (H 1%nat)).
Defined.

(** ** More on the velocity exchange *)

(** X13: two distinct non-static bodies of the same nonzero mass exchange
    their velocities, whatever these are. *)
Theorem equal_masses_swap (a b : BodyId) (w : World) :
  a <> b ->
  is_static (heap w a) = false -> is_static (heap w b) = false ->
  mass (heap w a) = mass (heap w b) -> mass (heap w a) <> 0 ->
  exists w',
    update_body_forces a b w = Some w'
    /\ speed (heap w' a) = speed (heap w b)
    /\ speed (heap w' b) = speed (heap w a).
Proof.
  intros Hab Sa Sb Hm H0.
  assert (Hs : mass (heap w a) + mass (heap w b) <> 0) by (rewrite <- Hm; lra).
  destruct (update_body_forces_speeds a b w Hab Hs) as (w' & E & H1 & H2).
  exists w'. split; [exact E |]. rewrite H1, H2, Sa, Sb, <- Hm.
  assert (Hmm : mass (heap w a) + mass (heap w a) <> 0) by lra.
  destruct (speed (heap w a)) as [x y], (speed (heap w b)) as [x' y'].
  unfold spec_v1, spec_v2. cbn [px py].
  split; f_equal; field; exact Hmm.
Qed.

Lemma equal_masses_swap_witness :
  exists w',
    update_body_forces 0%nat 1%nat chase_world = Some w'
    /\ speed (heap w' 0%nat) = mkPoint 1 0
    /\ speed (heap w' 1%nat) = mkPoint 3 0.
Proof.
  destruct (equal_masses_swap 0%nat 1%nat chase_world) as (w' & E & H1 & H2);
    try reflexivity; try discriminate.
  - cbn. lra.
  - exists w'. split; [exact E |]. split; [exact H1 | exact H2].
Defined.

(** ** The ball of the demonstration *)

Lemma tiny_margin : 0 < 1 / 10 ^ 10 <= 1.
Proof.
  assert (H : 1 <= 10 ^ 10) by (apply pow_R1_Rle; lra).
  assert (H0 : 0 < 10 ^ 10) by lra.
  split.
  - apply Rdiv_lt_0_compat; lra.
  - apply (Rmult_le_reg_r (10 ^ 10)); [exact H0 |]. field_simplify; lra.
Qed.

(** The four wall tests change the velocity only. *)
Lemma Ball_update_position body delta_time :
  position (Ball_update body delta_time)
  = mkPoint
      (Rmax (0 + radius (shape body))
            (Rmin (width - radius (shape body)) (px (position body))))
      (Rmax (0 - radius (shape body))
            (Rmin (height - radius (shape body) - 1 / 10 ^ 10) (py (position body)))).
Proof.
  unfold Ball_update.
  repeat match goal with
         | |- context [if Rleb ?x ?y then _ else _] => destruct (Rleb x y)
         end;
    cbn [set_speed position shape bounding_box speed];
    match goal with
    | |- context [point_eqb ?p ?q] => destruct (point_eqb p q) eqn:E
    end; cbn [negb]; try reflexivity;
    apply point_eqb_true in E; exact (eq_sym E).
Qed.

(** X14: after [Ball.update] the centre of the ball is at least a radius
    from the left wall and, when the window is wide enough for the ball, at
    most a radius short of the right wall; its ordinate is between minus the
    radius and the height less the radius and 1e-10. *)
Theorem Ball_update_clamps (body : Body) (delta_time : R) :
  let r := radius (shape body) in
  let p := position (Ball_update body delta_time) in
  r <= px p
  /\ (r <= width - r -> px p <= width - r)
  /\ - r <= py p <= height - r - 1 / 10 ^ 10.
Proof.
  intros r p. subst p. rewrite Ball_update_position. fold r. cbn [px py].
  destruct tiny_margin as (Ht & Ht'). unfold height, width.
  split; [| split; [| split]].
  - eapply Rle_trans; [| apply Rmax_l]. lra.
  - intros Hw. apply Rmax_lub; [lra | apply Rmin_l].
  - eapply Rle_trans; [| apply Rmax_l]. lra.
  - apply Rmax_lub; [lra | apply Rmin_l].
Qed.

Lemma Ball_update_clamps_witness :
  5 <= px (position (Ball_update
                       (mkBody (mkCircle (mkPoint 400 300) 5) (mkPoint 3 4) 5 false true)
                       1))
       <= width - 5.
Proof.
  destruct (Ball_update_clamps
              (mkBody (mkCircle (mkPoint 400 300) 5) (mkPoint 3 4) 5 false true) 1)
    as (H1 & H2 & _).
  split; [exact H1 |]. apply H2. cbn. unfold width. lra.
Defined.

(** X15: [Ball.update] leaves alone a ball, of a radius that is not
    negative, that is clear of the four walls, by 1e-10 at least from the
    top one. *)
Theorem Ball_update_inside (body : Body) (delta_time : R) :
  let r := radius (shape body) in
  let x := px (position body) in
  let y := py (position body) in
  0 <= r ->
  0 < x - r -> x + r < width -> 0 < y - r -> y + r <= height - 1 / 10 ^ 10 ->
  Ball_update body delta_time = body.
Proof.
  intros r x y Hr Hx0 Hx1 Hy0 Hy1. destruct tiny_margin as (Ht & _).
  subst r x y. unfold Ball_update.
  cbv zeta.
  rewrite (Rleb_false width (px (position body) + radius (shape body))) by lra.
  cbv beta iota.
  rewrite (Rleb_false (px (position body) - radius (shape body)) 0) by lra.
  cbv beta iota.
  rewrite (Rleb_false height (py (position body) + radius (shape body))) by lra.
  cbv beta iota.
  rewrite (Rleb_false (py (position body) - radius (shape body)) 0) by lra.
  cbv beta iota.
  rewrite Rmin_right by lra. rewrite Rmin_right by lra.
  rewrite Rmax_right by lra. rewrite Rmax_right by lra.
  assert (E : mkPoint (px (position body)) (py (position body)) = position body)
    by now destruct (position body).
  rewrite E. now rewrite (proj2 (point_eqb_true _ _) eq_refl).
Qed.

Lemma Ball_update_inside_witness :
  Ball_update (mkBody (mkCircle (mkPoint 100 100) 5) (mkPoint 3 4) 5 false true) 1
  = mkBody (mkCircle (mkPoint 100 100) 5) (mkPoint 3 4) 5 false true.
Proof.
  destruct tiny_margin as (Ht & Ht').
  apply Ball_update_inside; cbn; unfold width, height; lra.
Defined.

(** X16: [Ball.update] changes the velocity of the ball only by the sign of
    its components, and changes neither its radius, its mass nor its
    flags. *)
Theorem Ball_update_keeps_speed (body : Body) (delta_time : R) :
  let b := Ball_update body delta_time in
  Rabs (px (speed b)) = Rabs (px (speed body))
  /\ Rabs (py (speed b)) = Rabs (py (speed body))
  /\ radius (shape b) = radius (shape body)
  /\ mass b = mass body
  /\ is_static b = is_static body
  /\ is_tangible b = is_tangible body.
Proof.
  unfold Ball_update.
  repeat match goal with
         | |- context [if Rleb ?x ?y then _ else _] => destruct (Rleb x y)
         end;
    cbn [set_speed position shape bounding_box speed px py];
    match goal with
    | |- context [point_eqb ?p ?q] => destruct (point_eqb p q)
    end;
    cbn [negb move_to set_speed shape bounding_box speed px py mass is_static
         is_tangible center_to radius];
    rewrite ?Rabs_Ropp, ?Ropp_involutive; repeat split.
Qed.

(** ** Bodies that keep their distance *)

(** X17: a pair of bodies with the same velocity is never queued, whether
    the bodies are apart or overlap: the push leaves the world as it is. *)
Theorem equal_velocity_pair_not_queued (bp : BodyPair) (delta_time start_time : R)
    (w : World) :
  speed (heap w (body_a bp)) = speed (heap w (body_b bp)) ->
  push_to_collision_candidates bp delta_time start_time w = w.
Proof.
  intros H. unfold push_to_collision_candidates.
  now rewrite (equal_speed_is_nan _ _ H).
Qed.

Lemma equal_velocity_pair_not_queued_witness :
  push_to_collision_candidates (mkPair 0%nat 1%nat) 2 0 still_world = still_world.
Proof. apply equal_velocity_pair_not_queued. reflexivity. Defined.

Lemma queued_candidates_in_range_witness :
  0 <= 1 <= 2 /\ dict_mem Nat.eqb 0%nat (_moving_bodies chase_queued) = true.
Proof.
  destruct (queued_candidates_in_range (G := plain_geometry) 2 chase_world)
    as (w2 & E & H).
  rewrite chase_predict, chase_broad_phase in E. injection E as <-.
  destruct (H 1 (mkPair 0%nat 1%nat)) as (H1 & _ & H3); [now left |].
  split; [exact H1 | exact H3].
Defined.

(** ** A contact resolved after time has passed *)

Lemma relay_toc : time_of_collision (ball 100 2 3 false) (ball 105 0 1 true) = Fin (3 / 2).
Proof.
  rewrite (head_on_time _ _ 1 3 2 1 0); try reflexivity; try lra.
  - cbn. unfold padd, scalar_mult. cbn. by_parts.
  - unfold psub, scalar_mult. cbn. by_parts.
Qed.

Lemma relay_simulate :
  exists w3,
    simulate (G := plain_geometry) 2 relay_world = Some w3
    /\ handled w3 = [(0%nat, 1%nat); (1%nat, 0%nat); (2%nat, 3%nat); (3%nat, 2%nat)]
    /\ _moving_bodies w3
       = [(0%nat, mkRecord (mkPoint 0 0) (mkPoint 2 0) (sweep 2 (-1) 3));
          (2%nat, mkRecord (mkPoint 102 0) (mkPoint 103 0) (sweep 3 101 104))]
    /\ heap w3 2%nat = ball 102 1 3 false
    /\ heap w3 3%nat = ball 105 0 1 true.
Proof.
  unfold simulate, predict_all, reset. run.
  rewrite wall_toc. run. rewrite relay_toc. run.
  unfold detect_collisions. cbn. unfold check_collision, comparing_shape. run.
  unfold resolve_collision. run.
  unfold update_body_forces.
  rewrite exchange_v1_spec, exchange_v2_spec by (cbn; lra). run.
  unfold handle_contact, remove_moving_body. run.
  unfold predict_movement. run.
  unfold check_collision, comparing_shape. run.
  unfold resolve_collision. run.
  unfold update_body_forces.
  rewrite exchange_v1_spec, exchange_v2_spec by (cbn; lra). run.
  unfold handle_contact, remove_moving_body. run.
  unfold predict_movement. run.
  eexists. split; [reflexivity |]. cbn.
  unfold sweep, ball, body_update, set_speed, spec_v1, center_to, predict_position,
    position, padd, scalar_mult. cbn.
  repeat split; by_parts.
Qed.

(** C6, on the code as it is: in a tick of duration 2 the second popped
    candidate, of time 3/2, is resolved as a tangible contact when
    [current_time] is 1.  The resolution advances the moving body by 1, from
    100 to 102, and registers for it a record that ends at 103, the
    position re-predicted for the remaining time 2 - 1; the body holds this
    record at the end of RESOLVE and the last loop of [update] advances it
    by the full tick duration 2, to 104, past the end of its own record and
    into the static body at 105. *)
Theorem resolved_body_advanced_past_its_record :
  exists w3 r,
    simulate (G := plain_geometry) 2 relay_world = Some w3
    /\ update (G := plain_geometry) 2 relay_world = Some (commit 2 w3)
    /\ In (2%nat, 3%nat) (handled w3)
    /\ is_tangible (heap w3 2%nat) && is_tangible (heap w3 3%nat) = true
    /\ position (heap relay_world 2%nat) = mkPoint 100 0
    /\ position (heap w3 2%nat) = mkPoint 102 0
    /\ dict_get Nat.eqb 2%nat (_moving_bodies w3) = Some r
    /\ rec_new_pos r = mkPoint 103 0
    /\ rec_new_pos r = predict_position (heap w3 2%nat) (2 - 1)
    /\ heap (commit 2 w3) 2%nat = body_update (heap w3 2%nat) 2
    /\ position (heap (commit 2 w3) 2%nat) = mkPoint (102 + 1 * 2) (0 + 0 * 2)
    /\ heap (commit 2 w3) 3%nat = ball 105 0 1 true
    /\ toc_c (heap (commit 2 w3) 2%nat) (heap (commit 2 w3) 3%nat) < 0.
Proof.
  destruct relay_simulate as (w3 & E & Hh & Hm & H2 & H3).
  exists w3. eexists.
  split; [exact E |].
  split; [unfold update; now rewrite E |].
  split; [rewrite Hh; cbn; tauto |].
  split; [now rewrite H2, H3 |].
  split; [reflexivity |].
  split; [now rewrite H2 |].
  split; [rewrite Hm; reflexivity |].
  split; [reflexivity |].
  split.
  { rewrite H2. unfold predict_position, padd, scalar_mult. cbn. by_parts. }
  assert (Hc2 : heap (commit 2 w3) 2%nat = body_update (heap w3 2%nat) 2)
    by (unfold commit; rewrite Hm; reflexivity).
  assert (Hc3 : heap (commit 2 w3) 3%nat = heap w3 3%nat)
    by (unfold commit; rewrite Hm; reflexivity).
  split; [exact Hc2 |].
  split; [rewrite Hc2, H2; reflexivity |].
  split; [now rewrite Hc3 |].
  rewrite Hc2, Hc3, H2, H3.
  unfold toc_c, toc_distance. cbn. lra.
Qed.
